(** * Alternating minimization for nonnegative matrix factorization

    A shallow embedding of the notebook [nonneg_matrix_fact.ipynb]: the cell
    "Perform alternating minimization" is a loop over the notebook's global
    names that hands one convex subproblem per iteration to CVXPY.  The
    notebook's globals, its printed lines and the interaction with the
    library are explicit state; exceptions are explicit results. *)

From Stdlib Require Import Floats.PrimFloat ZArith Lia.
From stdpp Require Import list strings.

(** ** Data *)

(** Python floats are IEEE binary64 numbers; a 2-D NumPy array is kept as the
    list of its rows. *)
Definition scalar := float.
Definition Matrix := list (list scalar).

(** What a global name of the cell can hold: [None], a NumPy array, or a
    CVXPY variable of a given shape whose [.value] is [None] until a solve
    stores the solution in it. *)
Inductive value :=
| PyNone
| NDArray (a : Matrix)
| CpVariable (shape : nat * nat) (val : option Matrix).

Definition is_variable (v : value) : bool :=
  match v with CpVariable _ _ => true | _ => false end.

(** [X.value] / [Y.value]. An array has no such attribute; the cell reads it
    from variables only. *)
Definition dot_value (v : value) : value :=
  match v with
  | CpVariable _ (Some a) => NDArray a
  | _ => PyNone
  end.

(** ** The CVXPY boundary *)

Module Cvxpy.

(** [cp.OPTIMAL]; a status is a string. *)
Definition OPTIMAL : string := "optimal"%string.
Definition SCS : string := "SCS"%string.

(** [cp.Minimize(cp.norm(A - Y*X, 'fro'))]: the target and the two
    operands of the product, each an array or a variable. *)
Record objective := Minimize_norm_fro {
  target : Matrix;
  left : value;
  right : value
}.

(** [v >= 0] *)
Inductive constraint := GeZero (v : value).

(** [cp.Problem(obj, constraint)] *)
Record Problem := {
  obj : objective;
  constraints : list constraint
}.

(** The keyword arguments of [prob.solve]. *)
Record solve_args := { solver : string; max_iters : Z }.

(** What a solve leaves behind: [prob.status], [prob.value] and the
    [.value] stored in the problem's variable. *)
Record solution := {
  sol_status : string;
  sol_value : scalar;
  sol_primal : option Matrix
}.

(** [prob.solve] either returns or raises inside the library. *)
Inductive solve_outcome :=
| Solved (r : solution)
| SolverRaised (msg : string).

(** The library as the driver sees it: building the objective expression
    may be refused (shape rules), and a solve call answers from the
    solver's own state. *)
Record Library := {
  solver_state : Type;
  validate : objective -> option string;
  solve : solver_state -> Problem -> solve_args -> solve_outcome * solver_state
}.

(** What an observer of the library sees, one entry per interaction, in
    order: an objective being built (and refused or not), a solve call with
    its answer. *)
Inductive event :=
| Build (o : objective) (refused : option string)
| Solve (p : Problem) (a : solve_args) (out : solve_outcome).

End Cvxpy.
Import Cvxpy.

(** ** Notebook state *)

(** [prob] after [prob.solve]: the problem and, when the solve returned,
    what it reported. *)
Record prob_obj := {
  prob_problem : Problem;
  prob_solution : option solution
}.

(** The global names the cell reads and writes. [X] and [iter_num] are
    unbound until the first iteration assigns them; [constraint] and [obj]
    live on inside [prob]; [MAX_ITERS] is the count the loop is run with. *)
Record namespace := {
  ns_A : Matrix;
  ns_Y_init : Matrix;
  ns_m : nat;
  ns_n : nat;
  ns_k : nat;
  ns_Y : value;
  ns_X : option value;
  ns_residual : list scalar;
  ns_iter_num : option nat;
  ns_prob : option prob_obj
}.

Record world (L : Library) := {
  globals : namespace;
  stdout : list (nat * scalar);
  lib : solver_state L;
  trace : list event
}.
Arguments globals {L} _.
Arguments stdout {L} _.
Arguments lib {L} _.
Arguments trace {L} _.

Inductive exn :=
| Exception (msg : string)
| NameError (name : string)
| IndexError
| CvxpyError (msg : string).

Inductive result (T : Type) :=
| Returned (v : T)
| Raised (e : exn).
Arguments Returned {T} _.
Arguments Raised {T} _.

(** ** A state-and-exception monad for the cell

    A raised exception keeps the state reached so far: the notebook's
    globals survive an aborted cell. *)
Section Monad.
Context {L : Library}.

Definition M (T : Type) : Type := world L -> result T * world L.

Definition ret {T} (v : T) : M T := fun w => (Returned v, w).

Definition bind {T U} (c : M T) (f : T -> M U) : M U :=
  fun w =>
    match c w with
    | (Returned v, w') => f v w'
    | (Raised e, w') => (Raised e, w')
    end.

Definition raise {T} (e : exn) : M T := fun w => (Raised e, w).

Definition get_globals : M namespace := fun w => (Returned (globals w), w).

Definition put_globals (g : namespace) : M unit :=
  fun w => (Returned tt,
            {| globals := g; stdout := stdout w; lib := lib w; trace := trace w |}).

Definition print (line : nat * scalar) : M unit :=
  fun w => (Returned tt,
            {| globals := globals w; stdout := stdout w ++ [line];
               lib := lib w; trace := trace w |}).

Definition log (ev : event) : M unit :=
  fun w => (Returned tt,
            {| globals := globals w; stdout := stdout w;
               lib := lib w; trace := trace w ++ [ev] |}).

Definition call_solver (p : Problem) (a : solve_args) : M solve_outcome :=
  fun w =>
    let '(out, s') := solve L (lib w) p a in
    (Returned out,
     {| globals := globals w; stdout := stdout w; lib := s'; trace := trace w |}).
End Monad.

Notation "'do' x <- c ; k" := (bind c (fun x => k))
  (at level 10, x name, c at level 99, k at level 200).
Notation "c ;; k" := (bind c (fun _ => k))
  (at level 100, k at level 200, right associativity).

(** Assignments to single global names. *)
Definition set_Y (v : value) (g : namespace) : namespace :=
  {| ns_A := ns_A g; ns_Y_init := ns_Y_init g; ns_m := ns_m g; ns_n := ns_n g;
     ns_k := ns_k g; ns_Y := v; ns_X := ns_X g; ns_residual := ns_residual g;
     ns_iter_num := ns_iter_num g; ns_prob := ns_prob g |}.

Definition set_X (v : value) (g : namespace) : namespace :=
  {| ns_A := ns_A g; ns_Y_init := ns_Y_init g; ns_m := ns_m g; ns_n := ns_n g;
     ns_k := ns_k g; ns_Y := ns_Y g; ns_X := Some v; ns_residual := ns_residual g;
     ns_iter_num := ns_iter_num g; ns_prob := ns_prob g |}.

Definition set_residual (r : list scalar) (g : namespace) : namespace :=
  {| ns_A := ns_A g; ns_Y_init := ns_Y_init g; ns_m := ns_m g; ns_n := ns_n g;
     ns_k := ns_k g; ns_Y := ns_Y g; ns_X := ns_X g; ns_residual := r;
     ns_iter_num := ns_iter_num g; ns_prob := ns_prob g |}.

Definition set_iter_num (i : nat) (g : namespace) : namespace :=
  {| ns_A := ns_A g; ns_Y_init := ns_Y_init g; ns_m := ns_m g; ns_n := ns_n g;
     ns_k := ns_k g; ns_Y := ns_Y g; ns_X := ns_X g; ns_residual := ns_residual g;
     ns_iter_num := Some i; ns_prob := ns_prob g |}.

Definition set_prob (p : prob_obj) (g : namespace) : namespace :=
  {| ns_A := ns_A g; ns_Y_init := ns_Y_init g; ns_m := ns_m g; ns_n := ns_n g;
     ns_k := ns_k g; ns_Y := ns_Y g; ns_X := ns_X g; ns_residual := ns_residual g;
     ns_iter_num := ns_iter_num g; ns_prob := Some p |}.

(** ** NumPy pieces the cell uses *)

(** [np.zeros(n)] *)
Definition np_zeros (n : nat) : list scalar := replicate n 0%float.

(** [a[i] = v] on a 1-D array: a negative index counts from the end, an
    index outside [-len, len) raises [IndexError]. *)
Definition setitem (a : list scalar) (i : Z) (v : scalar) : option (list scalar) :=
  let len := Z.of_nat (length a) in
  if (0 <=? i)%Z && (i <? len)%Z then Some (<[Z.to_nat i := v]> a)
  else if (- len <=? i)%Z && (i <? 0)%Z then Some (<[Z.to_nat (len + i) := v]> a)
  else None.

(** ** The cell "Perform alternating minimization" *)

Section Driver.
Context {L : Library}.

(** [for i in l: body(i)] *)
Fixpoint for_each (l : list nat) (body : nat -> M (L:=L) unit) : M unit :=
  match l with
  | [] => ret tt
  | i :: l' => body i;; for_each l' body
  end.

(** [obj = cp.Minimize(cp.norm(A - Y*X, 'fro'))]. The names [A], [Y], [X]
    are read from the globals; the library checks the expression while it
    is built and raises on operands it does not accept. *)
Definition build_objective : M (L:=L) objective :=
  do g <- get_globals;
  match ns_X g with
  | None => raise (NameError "X")
  | Some x =>
      let o := {| target := ns_A g; left := ns_Y g; right := x |} in
      log (Build o (validate L o));;
      match validate L o with
      | Some msg => raise (CvxpyError msg)
      | None => ret o
      end
  end.

(** The solve stores the solution in the problem's variable, which is the
    object the global [X] (odd iterations) or [Y] (even iterations) names. *)
Definition store_value (v : value) (a : option Matrix) : value :=
  match v with
  | CpVariable shape _ => CpVariable shape a
  | _ => v
  end.

Definition store_solution (iter_num : nat) (r : solution) (g : namespace) : namespace :=
  if iter_num mod 2 =? 1 then
    match ns_X g with
    | Some x => set_X (store_value x (sol_primal r)) g
    | None => g
    end
  else set_Y (store_value (ns_Y g) (sol_primal r)) g.

(** The body of the loop, statement by statement. *)
Definition iteration (iter_num : nat) : M (L:=L) unit :=
  do g <- get_globals;
  put_globals (set_iter_num iter_num g);;
  do constraint <-
    (if iter_num mod 2 =? 1 then
       do g <- get_globals;
       let X := CpVariable (ns_k g, ns_n g) None in
       put_globals (set_X X g);;
       ret [GeZero X]
     else
       do g <- get_globals;
       let Y := CpVariable (ns_m g, ns_k g) None in
       put_globals (set_Y Y g);;
       ret [GeZero Y]);
  do obj <- build_objective;
  let prob := {| obj := obj; constraints := constraint |} in
  let args := {| solver := SCS; max_iters := 10000 |}%Z in
  do g <- get_globals;
  put_globals (set_prob {| prob_problem := prob; prob_solution := None |} g);;
  do out <- call_solver prob args;
  log (Solve prob args out);;
  match out with
  | SolverRaised msg => raise (CvxpyError msg)
  | Solved r =>
      do g <- get_globals;
      put_globals (set_prob {| prob_problem := prob; prob_solution := Some r |}
                     (store_solution iter_num r g));;
      if negb (String.eqb (sol_status r) OPTIMAL) then
        raise (Exception "Solver did not converge!")
      else
        print (iter_num, sol_value r);;
        do g <- get_globals;
        match setitem (ns_residual g) (Z.of_nat iter_num - 1) (sol_value r) with
        | None => raise IndexError
        | Some res =>
            put_globals (set_residual res g);;
            do g <- get_globals;
            if iter_num mod 2 =? 1 then
              match ns_X g with
              | Some x => put_globals (set_X (dot_value x) g)
              | None => raise (NameError "X")
              end
            else put_globals (set_Y (dot_value (ns_Y g)) g)
        end
  end.

(** The whole cell, for an iteration count [MAX_ITERS]. *)
Definition alternating_minimization (MAX_ITERS : nat) : M (L:=L) unit :=
  do g <- get_globals;
  put_globals (set_Y (NDArray (ns_Y_init g)) g);;
  do g <- get_globals;
  put_globals (set_residual (np_zeros MAX_ITERS) g);;
  for_each (seq 1 MAX_ITERS) iteration.

(** The globals after the cell "Generate problem data": [Y] and [residual]
    are assigned by the cell before they are read, [X] and [iter_num] are
    unbound. *)
Definition problem_data (A Y_init : Matrix) (m n k : nat) : namespace :=
  {| ns_A := A; ns_Y_init := Y_init; ns_m := m; ns_n := n; ns_k := k;
     ns_Y := PyNone; ns_X := None; ns_residual := []; ns_iter_num := None;
     ns_prob := None |}.

Definition start (g : namespace) (s : solver_state L) : world L :=
  {| globals := g; stdout := []; lib := s; trace := [] |}.

(** Running the cell on fresh problem data. *)
Definition execute (MAX_ITERS : nat) (A Y_init : Matrix) (m n k : nat)
    (s : solver_state L) : result unit * world L :=
  alternating_minimization MAX_ITERS (start (problem_data A Y_init m n k) s).

(** What a caller gets: the factors and the residual history when the cell
    completes, the exception when it does not. *)
Definition run (MAX_ITERS : nat) (A Y_init : Matrix) (m n k : nat)
    (s : solver_state L) : result (value * option value * list scalar) :=
  match execute MAX_ITERS A Y_init m n k s with
  | (Returned _, w) =>
      Returned (ns_Y (globals w), ns_X (globals w), ns_residual (globals w))
  | (Raised e, _) => Raised e
  end.

End Driver.

(** The count the notebook uses. *)
Definition MAX_ITERS : nat := 30.

(** ** Reading the trace *)

(** The solve calls among the events, in order. *)
Fixpoint solver_calls (tr : list event) : list (Problem * solve_args * solve_outcome) :=
  match tr with
  | [] => []
  | Solve p a out :: tr' => (p, a, out) :: solver_calls tr'
  | Build _ _ :: tr' => solver_calls tr'
  end.

Definition optimal (out : solve_outcome) : bool :=
  match out with
  | Solved r => String.eqb (sol_status r) OPTIMAL
  | SolverRaised _ => false
  end.

(** An interaction that did not fail: the objective was accepted, or the
    solve returned with status optimal. *)
Definition succeeded (ev : event) : bool :=
  match ev with
  | Build _ None => true
  | Build _ (Some _) => false
  | Solve _ _ out => optimal out
  end.

(** ** Library stand-ins used to run the cell *)

(** The shape of an operand; [None] has none. *)
Definition shape_of (v : value) : option (nat * nat) :=
  match v with
  | PyNone => None
  | NDArray a => Some (length a, length (hd [] a))
  | CpVariable shape _ => Some shape
  end.

(** The shape rule CVXPY applies to [A - Y*X]: inner dimensions of the
    product agree and the product has the shape of [A]. *)
Definition shapes_agree (o : objective) : option string :=
  match shape_of (left o), shape_of (right o) with
  | Some (r1, c1), Some (r2, c2) =>
      if (c1 =? r2) && (r1 =? length (target o))
         && (c2 =? length (hd [] (target o)))
      then None else Some "ValueError"%string
  | _, _ => Some "TypeError"%string
  end.

(** [np.full(shape, v)] and [np.zeros(shape)] for 2-D shapes. *)
Definition full (shape : nat * nat) (v : scalar) : Matrix :=
  replicate (fst shape) (replicate (snd shape) v).

Definition zeros (shape : nat * nat) : Matrix := full shape 0%float.

(** The shape of the variable a problem constrains. *)
Definition free_shape (p : Problem) : nat * nat :=
  match constraints p with
  | GeZero (CpVariable shape _) :: _ => shape
  | _ => (0, 0)
  end.

(** A solver that answers every call from a script of (status, value)
    pairs and reports optimal with value 0 once the script is used up. *)
Definition scripted : Library :=
  {| solver_state := list (string * scalar);
     validate := shapes_agree;
     solve := fun s p _ =>
       match s with
       | [] => (Solved {| sol_status := OPTIMAL; sol_value := 0%float;
                          sol_primal := Some (zeros (free_shape p)) |}, [])
       | (st, v) :: s' =>
           (Solved {| sol_status := st; sol_value := v;
                      sol_primal := if String.eqb st OPTIMAL
                                    then Some (zeros (free_shape p)) else None |}, s')
       end |}.

(** A solver that always reports optimal, with objective value 0.25 and a
    solution whose entries are all [fill]. *)
Definition steady (fill : scalar) : Library :=
  {| solver_state := unit;
     validate := shapes_agree;
     solve := fun s p _ =>
       (Solved {| sol_status := OPTIMAL; sol_value := 0.25%float;
                  sol_primal := Some (full (free_shape p) fill) |}, s) |}.

(** The doubles nearest to 1e-6 and to -1.29e-7. *)
Definition tolerance : scalar := 0x1.0c6f7a0b5ed8dp-20%float.
Definition slack : scalar := (-0x1.15067fff72442p-23)%float.

(** ** What a run looks like from outside *)

(** The subproblem of an odd iteration: [Y] is an array, [X] is a fresh
    [k x n] variable constrained to be nonnegative. *)
Definition solves_for_X (A : Matrix) (k n : nat) (p : Problem) : Prop :=
  target (obj p) = A /\
  is_variable (left (obj p)) = false /\
  right (obj p) = CpVariable (k, n) None /\
  constraints p = [GeZero (CpVariable (k, n) None)].

(** The subproblem of an even iteration: [X] is an array, [Y] is a fresh
    [m x k] variable constrained to be nonnegative. *)
Definition solves_for_Y (A : Matrix) (m k : nat) (p : Problem) : Prop :=
  target (obj p) = A /\
  left (obj p) = CpVariable (m, k) None /\
  is_variable (right (obj p)) = false /\
  constraints p = [GeZero (CpVariable (m, k) None)].

Definition phase (g : namespace) (i : nat) (p : Problem) : Prop :=
  if i mod 2 =? 1 then solves_for_X (ns_A g) (ns_k g) (ns_n g) p
  else solves_for_Y (ns_A g) (ns_m g) (ns_k g) p.

(** The array a solve leaves in its variable. *)
Definition primal_value (r : solution) : value :=
  match sol_primal r with
  | Some a => NDArray a
  | None => PyNone
  end.

Definition scs_args : solve_args := {| solver := SCS; max_iters := 10000 |}.

(** The problem data of [g0] is what [g] holds. *)
Definition same_data (g g0 : namespace) : Prop :=
  ns_A g = ns_A g0 /\ ns_Y_init g = ns_Y_init g0 /\
  ns_m g = ns_m g0 /\ ns_n g = ns_n g0 /\ ns_k g = ns_k g0.

Section RunShape.
Context {L : Library}.
Variable g0 : namespace.
Variable N : nat.

(** The solver really gave the answer [r] to problem [p]. *)
Definition answered (p : Problem) (r : solution) : Prop :=
  exists s s', solve L s p scs_args = (Solved r, s').

(** Iteration [idx + 1] ran to its end in [w]: one solve call of the
    right phase, answered optimal, its value printed and stored in slot
    [idx] of the residual history. *)
Definition completed (w : world L) (idx : nat) : Prop :=
  exists p r,
    solver_calls (trace w) !! idx = Some (p, scs_args, Solved r) /\
    answered p r /\
    sol_status r = OPTIMAL /\
    phase g0 (S idx) p /\
    ns_residual (globals w) !! idx = Some (sol_value r) /\
    stdout w !! idx = Some (S idx, sol_value r).

(** The factor named by a global comes from the solve of iteration
    [idx + 1]. *)
Definition from_solve (w : world L) (idx : nat) (v : value) : Prop :=
  exists p r,
    solver_calls (trace w) !! idx = Some (p, scs_args, Solved r) /\
    answered p r /\ sol_status r = OPTIMAL /\ v = primal_value r.

(** State between iterations, after [j] of them. *)
Record inv (j : nat) (w : world L) : Prop := {
  inv_data : same_data (globals w) g0;
  inv_residual : length (ns_residual (globals w)) = N;
  inv_trace : length (trace w) = 2 * j;
  inv_calls : length (solver_calls (trace w)) = j;
  inv_stdout : length (stdout w) = j;
  inv_completed : forall idx, idx < j -> completed w idx;
  inv_iter : 0 < j -> ns_iter_num (globals w) = Some j;
  inv_X : 0 < j ->
          exists idx x, idx < j /\ S idx mod 2 = 1 /\
                        ns_X (globals w) = Some x /\ from_solve w idx x;
  inv_Y0 : j < 2 -> ns_Y (globals w) = NDArray (ns_Y_init g0);
  inv_Y : 2 <= j ->
          exists idx, idx < j /\ S idx mod 2 = 0 /\
                      from_solve w idx (ns_Y (globals w))
}.

(** Why and where iteration [i] stopped the run. *)
Definition cause (i : nat) (e : exn) (w : world L) : Prop :=
  match e with
  | Exception msg =>
      msg = "Solver did not converge!"%string /\
      exists tr p r,
        trace w = tr ++ [Solve p scs_args (Solved r)] /\
        length (solver_calls tr) = i - 1 /\
        answered p r /\ sol_status r <> OPTIMAL /\ phase g0 i p /\
        ns_prob (globals w) =
          Some {| prob_problem := p; prob_solution := Some r |}
  | CvxpyError msg =>
      (exists tr o,
          trace w = tr ++ [Build o (Some msg)] /\
          validate L o = Some msg /\
          length (solver_calls tr) = i - 1) \/
      (exists tr p,
          trace w = tr ++ [Solve p scs_args (SolverRaised msg)] /\
          length (solver_calls tr) = i - 1 /\ phase g0 i p)
  | NameError _ | IndexError => False
  end.

(** State after the run was aborted in iteration [i]. *)
Record aborted (i : nat) (e : exn) (w : world L) : Prop := {
  ab_data : same_data (globals w) g0;
  ab_residual : length (ns_residual (globals w)) = N;
  ab_stdout : length (stdout w) = i - 1;
  ab_completed : forall idx, idx < i - 1 -> completed w idx;
  ab_iter : ns_iter_num (globals w) = Some i;
  ab_cause : cause i e w
}.

End RunShape.

(** ** How the factors pass from one iteration to the next *)

Definition call : Type := Problem * solve_args * solve_outcome.

(** The operand iteration [i] holds fixed: [Y] (the left one) when [i] is
    odd, [X] when it is even. *)
Definition fixed_operand (i : nat) (p : Problem) : value :=
  if i mod 2 =? 1 then left (obj p) else right (obj p).

(** The global iteration [i] assigns its solution to, and the one it leaves
    alone. *)
Definition solved_factor (i : nat) (g : namespace) : option value :=
  if i mod 2 =? 1 then ns_X g else Some (ns_Y g).

Definition kept_factor (i : nat) (g : namespace) : option value :=
  if i mod 2 =? 1 then Some (ns_Y g) else ns_X g.

(** Each returned solve hands its solution to the next call as the fixed
    operand. *)
Definition linked (calls : list call) : Prop :=
  forall idx p a r p' a' out',
    calls !! idx = Some (p, a, Solved r) ->
    calls !! S idx = Some (p', a', out') ->
    fixed_operand (S (S idx)) p' = primal_value r.

(** The first call holds the initial guess fixed. *)
Definition starts_from (Y_init : Matrix) (calls : list call) : Prop :=
  forall p a out,
    calls !! 0 = Some (p, a, out) -> left (obj p) = NDArray Y_init.

Section FlowShape.
Context {L : Library}.
Variable g0 : namespace.
Variable N : nat.

(** State between iterations, after [j] of them: where the two factors and
    [prob] come from, and which slots of the history are still untouched. *)
Record flow (j : nat) (w : world L) : Prop := {
  fl_first : starts_from (ns_Y_init g0) (solver_calls (trace w));
  fl_link : linked (solver_calls (trace w));
  fl_solved : 1 <= j ->
              exists p r,
                solver_calls (trace w) !! (j - 1) = Some (p, scs_args, Solved r) /\
                solved_factor j (globals w) = Some (primal_value r) /\
                ns_prob (globals w)
                  = Some {| prob_problem := p; prob_solution := Some r |};
  fl_kept : 2 <= j ->
            exists p r,
              solver_calls (trace w) !! (j - 2) = Some (p, scs_args, Solved r) /\
              kept_factor j (globals w) = Some (primal_value r);
  fl_zeros : forall idx, j <= idx -> idx < N ->
             ns_residual (globals w) !! idx = Some 0%float
}.

(** State after the run stopped in iteration [i]. *)
Record stopped (i : nat) (w : world L) : Prop := {
  st_first : starts_from (ns_Y_init g0) (solver_calls (trace w));
  st_link : linked (solver_calls (trace w));
  st_zeros : forall idx, i - 1 <= idx -> idx < N ->
             ns_residual (globals w) !! idx = Some 0%float
}.

End FlowShape.

(** ** The cell "Output results" *)

(** What the cell shows, item by item: the figure drawn from [residual]
    with its axis labels, a printed text, a printed array or other value,
    and the closing line with the iteration counter and [prob.value]. *)
Inductive display :=
| Figure (ys : list scalar) (xlabel ylabel : string)
| Text (s : string)
| Shown (v : value)
| Residual_after (iter_num : nat) (prob_value : option scalar).

(** The cell reads the globals left by the loop. [A - Y.dot(X)] is NumPy
    arithmetic, taken as [sub_dot]; it may raise. The items shown before an
    exception stay shown. *)
Definition output_results (sub_dot : Matrix -> value -> value -> result value)
    (g : namespace) : result unit * list display :=
  let shown :=
    [Figure (ns_residual g) "Iteration Number" "Residual Norm";
     Text "Original matrix:"; Shown (NDArray (ns_A g));
     Text "Left factor Y:"; Shown (ns_Y g);
     Text "Right factor X:"] in
  match ns_X g with
  | None => (Raised (NameError "X"), shown)
  | Some x =>
      let shown := shown ++ [Shown x; Text "Residual A - Y * X:"] in
      match sub_dot (ns_A g) (ns_Y g) x with
      | Raised e => (Raised e, shown)
      | Returned d =>
          let shown := shown ++ [Shown d] in
          match ns_iter_num g with
          | None => (Raised (NameError "iter_num"), shown)
          | Some i =>
              match ns_prob g with
              | None => (Raised (NameError "prob"), shown)
              | Some pr =>
                  (Returned tt,
                   shown ++ [Residual_after i (sol_value <$> prob_solution pr)])
              end
          end
      end
  end.

(** [A - Y.dot(X)] when one of the factors is all zeros: [A] itself. *)
Definition sub_dot_zero (A : Matrix) (Y X : value) : result value :=
  Returned (NDArray A).

(** ** Numerical contracts of the solver *)

(** Every entry is at least [- eps]. *)
Definition within_tolerance (eps : scalar) (a : Matrix) : Prop :=
  Forall (Forall (fun x => PrimFloat.leb (PrimFloat.opp eps) x = true)) a.

(** The global holds an array whose entries are nonnegative up to [eps]. *)
Definition nonneg_factor (eps : scalar) (v : value) : Prop :=
  exists a, v = NDArray a /\ within_tolerance eps a.

(** On status optimal the solver leaves a solution that is nonnegative up
    to [eps]. *)
Definition solver_nonneg (L : Library) (eps : scalar) : Prop :=
  forall s p a r s',
    solve L s p a = (Solved r, s') -> sol_status r = OPTIMAL ->
    exists sol, sol_primal r = Some sol /\ within_tolerance eps sol.

(** On status optimal the reported objective value is at least 0. *)
Definition solver_value_nonneg (L : Library) : Prop :=
  forall s p a r s',
    solve L s p a = (Solved r, s') -> sol_status r = OPTIMAL ->
    PrimFloat.leb 0%float (sol_value r) = true.

(** ** Basic facts *)

Lemma solver_calls_app (tr1 tr2 : list event) :
  solver_calls (tr1 ++ tr2) = solver_calls tr1 ++ solver_calls tr2.
Proof.
  induction tr1 as [| ev tr1 IH]; simpl; [reflexivity |].
  destruct ev; simpl; rewrite IH; reflexivity.
Qed.

(** Inside the range of the loop the write [residual[iter_num-1] = v]
    lands on slot [iter_num - 1]. *)
Lemma setitem_in_range (a : list scalar) (i : nat) (v : scalar) :
  1 <= i <= length a ->
  setitem a (Z.of_nat i - 1) v = Some (<[i - 1 := v]> a).
Proof.
  intros Hi. unfold setitem.
  replace (0 <=? Z.of_nat i - 1)%Z with true by (symmetry; apply Z.leb_le; lia).
  replace (Z.of_nat i - 1 <? Z.of_nat (length a))%Z with true
    by (symmetry; apply Z.ltb_lt; lia).
  simpl. do 2 f_equal. lia.
Qed.

Lemma is_variable_dot_value (v : value) : is_variable (dot_value v) = false.
Proof. destruct v as [| a | sh [a |]]; reflexivity. Qed.

(** ** The loop invariant *)

Section Invariant.
Context {L : Library}.
Variable g0 : namespace.
Variable N : nat.

Local Abbreviation answered := (@answered L).
Local Abbreviation completed := (completed g0).
Local Abbreviation inv := (inv g0 N).
Local Abbreviation aborted := (aborted g0 N).

Lemma completed_mono (w w' : world L) (idx : nat) evs lines :
  completed w idx ->
  trace w' = trace w ++ evs ->
  stdout w' = stdout w ++ lines ->
  ns_residual (globals w') !! idx = ns_residual (globals w) !! idx ->
  completed w' idx.
Proof.
  intros (p & r & Hcall & Hans & Hst & Hph & Hres & Hout) Htr Hso Hrs.
  exists p, r. rewrite Htr, Hso, Hrs, solver_calls_app.
  repeat split; try assumption; apply lookup_app_l_Some; assumption.
Qed.

Lemma from_solve_mono (w w' : world L) (idx : nat) (v : value) evs :
  from_solve w idx v ->
  trace w' = trace w ++ evs ->
  from_solve w' idx v.
Proof.
  intros (p & r & Hcall & Hans & Hst & Hv) Htr.
  exists p, r. rewrite Htr, solver_calls_app.
  repeat split; try assumption. apply lookup_app_l_Some; assumption.
Qed.

Lemma even_phase (i : nat) : (i mod 2 =? 1) = false -> i mod 2 = 0.
Proof.
  intros H. apply Nat.eqb_neq in H.
  assert (i mod 2 < 2) by (apply Nat.mod_upper_bound; lia). lia.
Qed.

Lemma odd_first (j : nat) : (S j mod 2 =? 1) = false -> 0 < j.
Proof. destruct j; [discriminate | lia]. Qed.

Lemma lookup_snoc {T} (l : list T) (x : T) (j : nat) :
  length l = j -> (l ++ [x]) !! j = Some x.
Proof. intros <-. apply list_lookup_middle. reflexivity. Qed.

(** Facts kept by whatever an iteration appends to the trace and the
    printed lines. *)
Ltac keep_completed Hcomp :=
  let idx := fresh "idx" in
  let Hidx := fresh "Hidx" in
  intros idx Hidx;
  eapply completed_mono;
  [ apply Hcomp; lia
  | simpl; rewrite <- ?app_assoc; reflexivity
  | simpl; first [ reflexivity | symmetry; apply app_nil_r ]
  | simpl; first [ reflexivity | apply list_lookup_insert_ne; lia ] ].

Ltac keep_from_solve H :=
  eapply from_solve_mono; [ exact H | simpl; rewrite <- ?app_assoc; reflexivity ].

Ltac new_call Hc :=
  simpl; rewrite !solver_calls_app; simpl; rewrite app_nil_r;
  apply lookup_snoc; exact Hc.

Lemma iteration_step (j : nat) (w : world L) :
  inv j w -> j < N ->
  match iteration (S j) w with
  | (Returned _, w') => inv (S j) w'
  | (Raised e, w') => aborted (S j) e w'
  end.
Proof.
  intros [Hd Hr Ht Hc Hs Hcomp Hi HX HY0 HY] HjN.
  assert (Hd' := Hd). destruct Hd' as (HA & HYi & Hm & Hn & Hk).
  unfold iteration, build_objective, bind, get_globals, put_globals, ret, raise,
    log, print, call_solver.
  destruct (S j mod 2 =? 1) eqn:Hpar; simpl.
  - (* odd: X is the variable *)
    assert (Hleft : is_variable (ns_Y (globals w)) = false).
    { destruct (decide (j < 2)) as [Hlt | Hge].
      - rewrite (HY0 Hlt). reflexivity.
      - destruct HY as (idx & _ & _ & p & r & _ & _ & _ & ->); [lia |].
        unfold primal_value. destruct (sol_primal r); reflexivity. }
    assert (Hph : phase g0 (S j)
              {| obj := {| target := ns_A (globals w); left := ns_Y (globals w);
                           right := CpVariable (ns_k (globals w), ns_n (globals w)) None |};
                 constraints :=
                   [GeZero (CpVariable (ns_k (globals w), ns_n (globals w)) None)] |}).
    { unfold phase. rewrite Hpar, HA, Hk, Hn. repeat split. exact Hleft. }
    destruct (validate L _) as [msg |] eqn:Hval; simpl.
    + split; simpl; try assumption; try reflexivity; try lia.
      * keep_completed Hcomp.
      * left. eexists _, _. split; [reflexivity |]. split; [exact Hval |]. lia.
    + destruct (solve L _ _ _) as [out s'] eqn:Hsolve; simpl.
      destruct out as [r | msg]; simpl.
      * assert (Hans : answered
              {| obj := {| target := ns_A (globals w); left := ns_Y (globals w);
                           right := CpVariable (ns_k (globals w), ns_n (globals w)) None |};
                 constraints :=
                   [GeZero (CpVariable (ns_k (globals w), ns_n (globals w)) None)] |} r).
        { eexists _, _. exact Hsolve. }
        unfold store_solution. rewrite Hpar. simpl.
        destruct (negb _) eqn:Hst; simpl.
        -- split; simpl; try assumption; try reflexivity; try lia.
           ++ keep_completed Hcomp.
           ++ split; [reflexivity |]. eexists _, _, _.
              split; [reflexivity |].
              rewrite solver_calls_app, length_app. simpl.
              split; [lia |]. split; [exact Hans |]. split.
              ** intros Heq. rewrite Heq in Hst. discriminate.
              ** split; [exact Hph |]. reflexivity.
        -- apply negb_false_iff, String.eqb_eq in Hst.
           rewrite setitem_in_range by (simpl; lia). simpl.
           replace (j - 0) with j by lia.
           split; simpl; try assumption.
           ++ rewrite length_insert. exact Hr.
           ++ rewrite !length_app. simpl. lia.
           ++ rewrite !solver_calls_app, !length_app. simpl. lia.
           ++ rewrite length_app. simpl. lia.
           ++ intros idx Hidx. destruct (decide (idx = j)) as [-> | Hne].
              ** eexists _, r. split; [new_call Hc |].
                 split; [exact Hans |]. split; [exact Hst |]. split; [exact Hph |].
                 simpl. split.
                 --- apply list_lookup_insert_eq. lia.
                 --- apply lookup_snoc. exact Hs.
              ** revert idx Hidx Hne. intros idx Hidx Hne.
                 eapply completed_mono;
                   [ apply Hcomp; lia | simpl; rewrite <- ?app_assoc; reflexivity
                   | simpl; reflexivity
                   | simpl; apply list_lookup_insert_ne; lia ].
           ++ reflexivity.
           ++ intros _. exists j. eexists. split; [lia |].
              split; [apply Nat.eqb_eq; exact Hpar |]. split; [reflexivity |].
              eexists _, r. split; [new_call Hc |].
              split; [exact Hans |]. split; [exact Hst |]. reflexivity.
           ++ intros Hlt. apply HY0. lia.
           ++ intros Hge. destruct HY as (idx & Hidx & Hev & Hfrom).
              { destruct j as [| [| j']]; [lia | discriminate | lia]. }
              exists idx. split; [lia |]. split; [exact Hev |]. keep_from_solve Hfrom.
      * split; simpl; try assumption; try reflexivity; try lia.
        -- keep_completed Hcomp.
        -- right. eexists _, _. split; [reflexivity |].
           rewrite solver_calls_app, length_app. simpl. split; [lia | exact Hph].
  - (* even: Y is the variable, X was bound by the iteration before *)
    assert (Hj : 0 < j) by (apply odd_first; exact Hpar).
    destruct (HX Hj) as (ix & x & Hix & Hodd & HXx & Hfrom).
    rewrite HXx. simpl.
    assert (Hright : is_variable x = false).
    { destruct Hfrom as (p & r & _ & _ & _ & ->).
      unfold primal_value. destruct (sol_primal r); reflexivity. }
    assert (Hph : phase g0 (S j)
              {| obj := {| target := ns_A (globals w);
                           left := CpVariable (ns_m (globals w), ns_k (globals w)) None;
                           right := x |};
                 constraints :=
                   [GeZero (CpVariable (ns_m (globals w), ns_k (globals w)) None)] |}).
    { unfold phase. rewrite Hpar, HA, Hm, Hk. repeat split. exact Hright. }
    destruct (validate L _) as [msg |] eqn:Hval; simpl.
    + split; simpl; try assumption; try reflexivity; try lia.
      * keep_completed Hcomp.
      * left. eexists _, _. split; [reflexivity |]. split; [exact Hval |]. lia.
    + destruct (solve L _ _ _) as [out s'] eqn:Hsolve; simpl.
      destruct out as [r | msg]; simpl.
      * assert (Hans : answered
              {| obj := {| target := ns_A (globals w);
                           left := CpVariable (ns_m (globals w), ns_k (globals w)) None;
                           right := x |};
                 constraints :=
                   [GeZero (CpVariable (ns_m (globals w), ns_k (globals w)) None)] |} r).
        { eexists _, _. exact Hsolve. }
        unfold store_solution. rewrite Hpar. simpl.
        destruct (negb _) eqn:Hst; simpl.
        -- split; simpl; try assumption; try reflexivity; try lia.
           ++ keep_completed Hcomp.
           ++ split; [reflexivity |]. eexists _, _, _.
              split; [reflexivity |].
              rewrite solver_calls_app, length_app. simpl.
              split; [lia |]. split; [exact Hans |]. split.
              ** intros Heq. rewrite Heq in Hst. discriminate.
              ** split; [exact Hph |]. reflexivity.
        -- apply negb_false_iff, String.eqb_eq in Hst.
           rewrite setitem_in_range by (simpl; lia). simpl.
           replace (j - 0) with j by lia.
           split; simpl; try assumption.
           ++ rewrite length_insert. exact Hr.
           ++ rewrite !length_app. simpl. lia.
           ++ rewrite !solver_calls_app, !length_app. simpl. lia.
           ++ rewrite length_app. simpl. lia.
           ++ intros idx Hidx. destruct (decide (idx = j)) as [-> | Hne].
              ** eexists _, r. split; [new_call Hc |].
                 split; [exact Hans |]. split; [exact Hst |]. split; [exact Hph |].
                 simpl. split.
                 --- apply list_lookup_insert_eq. lia.
                 --- apply lookup_snoc. exact Hs.
              ** eapply completed_mono;
                   [ apply Hcomp; lia | simpl; rewrite <- ?app_assoc; reflexivity
                   | simpl; reflexivity
                   | simpl; apply list_lookup_insert_ne; lia ].
           ++ reflexivity.
           ++ intros _. exists ix, x. split; [lia |]. split; [exact Hodd |].
              split; [exact HXx |]. keep_from_solve Hfrom.
           ++ intros Hlt. lia.
           ++ intros _. exists j. split; [lia |]. split.
              { exact (even_phase (S j) Hpar). }
              eexists _, r. split; [new_call Hc |].
              split; [exact Hans |]. split; [exact Hst |]. reflexivity.
      * split; simpl; try assumption; try reflexivity; try lia.
        -- keep_completed Hcomp.
        -- right. eexists _, _. split; [reflexivity |].
           rewrite solver_calls_app, length_app. simpl. split; [lia | exact Hph].
Qed.
(** The loop from iteration [j + 1] on, for [len] more iterations. *)
Lemma loop_from (len : nat) : forall (j : nat) (w : world L),
  inv j w -> j + len <= N ->
  match for_each (seq (S j) len) iteration w with
  | (Returned _, w') => inv (j + len) w'
  | (Raised e, w') => exists i, j < i <= j + len /\ aborted i e w'
  end.
Proof.
  induction len as [| len IH]; intros j w Hinv Hle; simpl.
  - replace (j + 0) with j by lia. exact Hinv.
  - unfold bind. pose proof (iteration_step j w Hinv) as Hstep.
    destruct (iteration (S j) w) as [[[] | e] w1].
    + specialize (IH (S j) w1 (Hstep ltac:(lia)) ltac:(lia)).
      destruct (for_each (seq (S (S j)) len) iteration w1) as [[[] | e] w2].
      * replace (j + S len) with (S j + len) by lia. exact IH.
      * destruct IH as (i & Hi & Hab). exists i. split; [lia | exact Hab].
    + exists (S j). split; [lia |]. apply Hstep. lia.
Qed.

(** The cell as a whole, started on the globals [g0] with nothing printed
    and no library interaction yet. *)
Lemma cell_summary (s : solver_state L) :
  match alternating_minimization N (start g0 s) with
  | (Returned _, w') => inv N w'
  | (Raised e, w') => exists i, 1 <= i <= N /\ aborted i e w'
  end.
Proof.
  unfold alternating_minimization, bind, get_globals, put_globals, start. simpl.
  match goal with
  | |- match for_each _ _ ?w with _ => _ end =>
      pose proof (loop_from N 0 w) as Hloop
  end.
  simpl in Hloop.
  match type of Hloop with
  | ?P -> _ => assert (Hinv : P)
  end.
  { split; simpl; try reflexivity; try lia.
    - unfold same_data. simpl. repeat split.
    - unfold np_zeros. apply length_replicate. }
  specialize (Hloop Hinv (le_n N)).
  destruct (for_each (seq 1 N) iteration _) as [[[] | e] w'].
  - exact Hloop.
  - destruct Hloop as (i & Hi & Hab). exists i. split; [lia | exact Hab].
Qed.

(** Every solve call has the phase of its position, whatever the outcome. *)
Lemma inv_calls_phase (j : nat) (w : world L) (i : nat) p a out :
  inv j w ->
  solver_calls (trace w) !! i = Some (p, a, out) ->
  phase g0 (S i) p /\ a = scs_args /\ optimal out = true.
Proof.
  intros Hinv Hlook.
  assert (Hi : i < j).
  { rewrite <- (inv_calls _ _ _ _ Hinv). eapply lookup_lt_Some. exact Hlook. }
  destruct (inv_completed _ _ _ _ Hinv i Hi) as (p' & r & Hcall & _ & Hst & Hph & _).
  rewrite Hcall in Hlook. injection Hlook as <- <- <-.
  repeat split; try assumption. simpl. apply String.eqb_eq. exact Hst.
Qed.

(** The calls of an aborted run: those of the completed iterations, then
    at most the one that failed. *)
Lemma aborted_calls (i : nat) (e : exn) (w : world L) :
  aborted i e w -> 1 <= i ->
  exists tr ev,
    trace w = tr ++ [ev] /\ length (solver_calls tr) = i - 1 /\
    match ev with
    | Build o refused =>
        exists msg, refused = Some msg /\ e = CvxpyError msg /\
                    validate L o = Some msg
    | Solve p a out =>
        a = scs_args /\ phase g0 i p /\ optimal out = false /\
        match out with
        | Solved r =>
            e = Exception "Solver did not converge!" /\ answered p r /\
            ns_prob (globals w) =
              Some {| prob_problem := p; prob_solution := Some r |}
        | SolverRaised msg => e = CvxpyError msg
        end
    end.
Proof.
  intros Hab Hi. pose proof (ab_cause _ _ _ _ _ Hab) as Hcause.
  destruct e as [msg | name | | msg]; simpl in Hcause; try contradiction.
  - destruct Hcause as (-> & tr & p & r & Htr & Hlen & Hans & Hst & Hph & Hprob).
    exists tr, (Solve p scs_args (Solved r)).
    repeat split; try assumption.
    simpl. apply String.eqb_neq. exact Hst.
  - destruct Hcause as [(tr & o & Htr & Hval & Hlen) | (tr & p & Htr & Hlen & Hph)].
    + exists tr, (Build o (Some msg)). repeat split; try assumption.
      exists msg. repeat split. exact Hval.
    + exists tr, (Solve p scs_args (SolverRaised msg)).
      repeat split; assumption.
Qed.
(** Every solve call of a run, completed or not, has the phase of its
    position and there are never more calls than iterations. *)
Lemma calls_phase (s : solver_state L) (i : nat) p a out :
  solver_calls (trace (alternating_minimization N (start g0 s)).2) !! i
    = Some (p, a, out) ->
  phase g0 (S i) p /\ a = scs_args /\ S i <= N.
Proof.
  pose proof (cell_summary s) as Hsum.
  destruct (alternating_minimization N (start g0 s)) as [[[] | e] w']; simpl.
  - intros Hlook.
    destruct (inv_calls_phase N w' i p a out Hsum Hlook) as (Hph & Ha & _).
    repeat split; try assumption.
    rewrite <- (inv_calls _ _ _ _ Hsum). eapply lookup_lt_Some. exact Hlook.
  - destruct Hsum as (i0 & Hi0 & Hab).
    destruct (aborted_calls i0 e w' Hab ltac:(lia)) as (tr & ev & Htr & Hlen & Hev).
    rewrite Htr, solver_calls_app. intros Hlook.
    destruct (decide (i < i0 - 1)) as [Hlt | Hge].
    + destruct (ab_completed _ _ _ _ _ Hab i Hlt)
        as (p' & r & Hcall & _ & _ & Hph & _).
      rewrite Htr, solver_calls_app in Hcall. rewrite Hcall in Hlook.
      injection Hlook as <- <- <-. repeat split; [exact Hph | lia].
    + rewrite lookup_app_r in Hlook by lia. rewrite Hlen in Hlook.
      destruct ev as [o refused | p' a' out']; simpl in Hlook.
      * rewrite lookup_nil in Hlook. discriminate.
      * destruct (i - (i0 - 1)) as [| d] eqn:Hd; simpl in Hlook; [| discriminate].
        injection Hlook as <- <- <-.
        destruct Hev as (-> & Hph & _).
        replace (S i) with i0 by lia. repeat split; [exact Hph | lia].
Qed.

End Invariant.

(** ** The run as its caller sees it *)

Section Run.
Context {L : Library}.
Variables (MAX : nat) (A Y_init : Matrix) (m n k : nat) (s : solver_state L).

Lemma run_returned Y X residual :
  run MAX A Y_init m n k s = Returned (Y, X, residual) ->
  exists w,
    execute MAX A Y_init m n k s = (Returned tt, w) /\
    Y = ns_Y (globals w) /\ X = ns_X (globals w) /\
    residual = ns_residual (globals w).
Proof.
  unfold run. destruct (execute MAX A Y_init m n k s) as [[[] | e] w]; [| discriminate].
  intros [= <- <- <-]. exists w. repeat split.
Qed.

Lemma run_raised (e : exn) :
  run MAX A Y_init m n k s = Raised e <->
  (execute MAX A Y_init m n k s).1 = Raised e.
Proof.
  unfold run. destruct (execute MAX A Y_init m n k s) as [[[] | e'] w]; simpl.
  - split; discriminate.
  - split; intros [= ->]; reflexivity.
Qed.

Lemma execute_summary :
  match execute MAX A Y_init m n k s with
  | (Returned _, w) => inv (problem_data A Y_init m n k) MAX MAX w
  | (Raised e, w) =>
      exists i, 1 <= i <= MAX /\ aborted (problem_data A Y_init m n k) MAX i e w
  end.
Proof. apply cell_summary. Qed.

(** A solve call that returned a status other than optimal is where the run
    stopped. *)
Lemma failing_call (i : nat) p a r :
  solver_calls (trace (execute MAX A Y_init m n k s).2) !! i = Some (p, a, Solved r) ->
  sol_status r <> OPTIMAL ->
  (execute MAX A Y_init m n k s).1 = Raised (Exception "Solver did not converge!") /\
  length (solver_calls (trace (execute MAX A Y_init m n k s).2)) = S i /\
  (exists tr, trace (execute MAX A Y_init m n k s).2 = tr ++ [Solve p a (Solved r)]) /\
  ns_iter_num (globals (execute MAX A Y_init m n k s).2) = Some (S i) /\
  length (stdout (execute MAX A Y_init m n k s).2) = i /\
  ns_prob (globals (execute MAX A Y_init m n k s).2)
    = Some {| prob_problem := p; prob_solution := Some r |}.
Proof.
  pose proof execute_summary as Hsum.
  destruct (execute MAX A Y_init m n k s) as [[[] | e] w]; simpl; intros Hlook Hst.
  - exfalso.
    destruct (inv_calls_phase _ _ _ _ _ _ _ _ Hsum Hlook) as (_ & _ & Ho).
    simpl in Ho. apply String.eqb_eq in Ho. contradiction.
  - destruct Hsum as (i0 & Hi0 & Hab).
    destruct (aborted_calls _ _ _ _ _ Hab ltac:(lia)) as (tr & ev & Htr & Hlen & Hev).
    destruct (decide (i < i0 - 1)) as [Hlt | Hge].
    + exfalso.
      destruct (ab_completed _ _ _ _ _ Hab i Hlt) as (p' & r' & Hcall & _ & Hst' & _).
      rewrite Hcall in Hlook. injection Hlook as <- <- <-. contradiction.
    + rewrite Htr, solver_calls_app, lookup_app_r in Hlook by lia.
      rewrite Hlen in Hlook.
      destruct ev as [o refused | p' a' out']; simpl in Hlook.
      * rewrite lookup_nil in Hlook. discriminate.
      * destruct (i - (i0 - 1)) as [| d] eqn:Hd; simpl in Hlook; [| discriminate].
        injection Hlook as -> -> ->.
        destruct Hev as (_ & _ & _ & -> & _ & Hprob).
        assert (i0 = S i) as -> by lia.
        split; [reflexivity |]. split.
        { rewrite Htr, solver_calls_app, length_app. simpl. lia. }
        split; [exists tr; exact Htr |].
        split; [exact (ab_iter _ _ _ _ _ Hab) |].
        split; [| exact Hprob].
        rewrite (ab_stdout _ _ _ _ _ Hab). lia.
Qed.

(** The only exception the cell raises itself has the fixed message and
    comes after a solve call that returned a status other than optimal. *)
Lemma exception_cause (msg : string) :
  (execute MAX A Y_init m n k s).1 = Raised (Exception msg) ->
  msg = "Solver did not converge!"%string /\
  exists i p a r,
    solver_calls (trace (execute MAX A Y_init m n k s).2) !! i = Some (p, a, Solved r) /\
    sol_status r <> OPTIMAL.
Proof.
  pose proof execute_summary as Hsum.
  destruct (execute MAX A Y_init m n k s) as [[[] | e] w]; simpl; [discriminate |].
  intros [= ->].
  destruct Hsum as (i0 & Hi0 & Hab).
  destruct (aborted_calls _ _ _ _ _ Hab ltac:(lia)) as (tr & ev & Htr & Hlen & Hev).
  destruct ev as [o refused | p a out].
  - destruct Hev as (msg' & _ & [=] & _).
  - destruct Hev as (-> & _ & Hno & Hout). destruct out as [r | msg']; [| discriminate].
    destruct Hout as ([= ->] & _). split; [reflexivity |].
    exists (i0 - 1), p, scs_args, r. split.
    + rewrite Htr, solver_calls_app. simpl. apply list_lookup_middle.
      symmetry. exact Hlen.
    + simpl in Hno. apply String.eqb_neq. exact Hno.
Qed.

End Run.

(** ** The claims *)

(** C1. Phase parity: the solve call of iteration [i] (1-indexed) lies within
    the [MAX] iterations of the loop and, when [i] is odd, holds [Y] fixed as
    an array and minimizes the Frobenius norm of [A - Y*X] over a fresh
    nonnegative [X]; when [i] is even it holds [X] fixed and solves for a
    fresh nonnegative [Y]. No call has another phase. *)
Theorem phase_parity {L : Library} (MAX : nat) (A Y_init : Matrix) (m n k : nat)
    (s : solver_state L) (i : nat) p a out :
  1 <= i ->
  solver_calls (trace (execute MAX A Y_init m n k s).2) !! (i - 1) = Some (p, a, out) ->
  i <= MAX /\
  if i mod 2 =? 1 then solves_for_X A k n p else solves_for_Y A m k p.
Proof.
  intros Hi Hlook. unfold execute in Hlook.
  apply calls_phase in Hlook. destruct Hlook as (Hph & _ & Hle).
  replace (S (i - 1)) with i in * by lia. split; [exact Hle |].
  exact Hph.
Qed.

(** C2. A run that returns hands back a residual history of length [MAX]
    whose [i]-th entry, in iteration order, is the objective value the
    solver reported, with status optimal, at iteration [i]. *)
Theorem residual_history {L : Library} (MAX : nat) (A Y_init : Matrix) (m n k : nat)
    (s : solver_state L) Y X (residual : list scalar) :
  run MAX A Y_init m n k s = Returned (Y, X, residual) ->
  length residual = MAX /\
  forall i, 1 <= i <= MAX ->
    exists p r,
      solver_calls (trace (execute MAX A Y_init m n k s).2) !! (i - 1)
        = Some (p, scs_args, Solved r) /\
      sol_status r = OPTIMAL /\
      residual !! (i - 1) = Some (sol_value r).
Proof.
  intros Hrun. apply run_returned in Hrun.
  destruct Hrun as (w & Hex & _ & _ & ->).
  pose proof (execute_summary MAX A Y_init m n k s) as Hsum.
  rewrite Hex in *. simpl.
  split; [exact (inv_residual _ _ _ _ Hsum) |].
  intros i Hi.
  destruct (inv_completed _ _ _ _ Hsum (i - 1) ltac:(lia))
    as (p & r & Hcall & _ & Hst & _ & Hres & _).
  exists p, r. repeat split; assumption.
Qed.

(** C3. The run fails with the exception "Solver did not converge!" exactly
    when some solve call returned a status other than optimal. That call ends
    the run on the spot: it is the last interaction with the library, there
    was one call per iteration up to it (no retry, no later iteration), the
    iteration counter stays at the failing iteration, and the caller gets the
    exception, not factors and a history. *)
Theorem convergence_error {L : Library} (MAX : nat) (A Y_init : Matrix) (m n k : nat)
    (s : solver_state L) :
  let w := (execute MAX A Y_init m n k s).2 in
  (run MAX A Y_init m n k s = Raised (Exception "Solver did not converge!") <->
   exists i p a r,
     solver_calls (trace w) !! i = Some (p, a, Solved r) /\ sol_status r <> OPTIMAL) /\
  (forall msg, run MAX A Y_init m n k s = Raised (Exception msg) ->
               msg = "Solver did not converge!"%string) /\
  (forall i p a r,
     solver_calls (trace w) !! i = Some (p, a, Solved r) ->
     sol_status r <> OPTIMAL ->
     length (solver_calls (trace w)) = S i /\
     (exists tr, trace w = tr ++ [Solve p a (Solved r)]) /\
     ns_iter_num (globals w) = Some (S i) /\
     length (stdout w) = i /\
     run MAX A Y_init m n k s = Raised (Exception "Solver did not converge!")).
Proof.
  intros w. subst w. split; [split |]; [| | split].
  - intros Hrun. apply run_raised in Hrun.
    destruct (exception_cause MAX A Y_init m n k s _ Hrun) as (_ & Hex). exact Hex.
  - intros (i & p & a & r & Hlook & Hst). apply run_raised.
    destruct (failing_call MAX A Y_init m n k s i p a r Hlook Hst) as (Hres & _).
    exact Hres.
  - intros msg Hrun. apply run_raised in Hrun.
    destruct (exception_cause MAX A Y_init m n k s _ Hrun) as (Hmsg & _). exact Hmsg.
  - intros i p a r Hlook Hst.
    destruct (failing_call MAX A Y_init m n k s i p a r Hlook Hst)
      as (Hres & Hlen & Htr & Hiter & Hout & _).
    repeat split; try assumption. apply run_raised. exact Hres.
Qed.

(** C4. When no interaction with the library fails (no objective refused,
    every solve answered optimal), the loop performs exactly [MAX]
    iterations whatever values the solver reports: the cell returns, having
    made [MAX] solve calls, printed [MAX] lines and left the counter at
    [MAX]. *)
Theorem full_iteration_count {L : Library} (MAX : nat) (A Y_init : Matrix) (m n k : nat)
    (s : solver_state L) :
  Forall (fun ev => succeeded ev = true) (trace (execute MAX A Y_init m n k s).2) ->
  (execute MAX A Y_init m n k s).1 = Returned tt /\
  length (solver_calls (trace (execute MAX A Y_init m n k s).2)) = MAX /\
  length (stdout (execute MAX A Y_init m n k s).2) = MAX /\
  (0 < MAX -> ns_iter_num (globals (execute MAX A Y_init m n k s).2) = Some MAX).
Proof.
  pose proof (execute_summary MAX A Y_init m n k s) as Hsum.
  destruct (execute MAX A Y_init m n k s) as [[[] | e] w]; simpl; intros Hall.
  - destruct Hsum. repeat split; assumption.
  - exfalso. destruct Hsum as (i0 & Hi0 & Hab).
    destruct (aborted_calls _ _ _ _ _ Hab ltac:(lia)) as (tr & ev & Htr & _ & Hev).
    rewrite Htr in Hall. apply Forall_app in Hall. destruct Hall as (_ & Hall).
    apply Forall_inv in Hall.
    destruct ev as [o refused | p a out]; simpl in Hall.
    + destruct Hev as (msg & -> & _). simpl in Hall. discriminate.
    + destruct Hev as (_ & _ & Hno & _). congruence.
Qed.

(** C5 (as amended). When the solve call of iteration [i] returns a status
    other than optimal, the run raises the exception with the fixed message
    "Solver did not converge!"; the iteration number and the reported status
    are not part of the exception, they stay readable in the globals
    [iter_num] and [prob]. *)
Theorem convergence_error_payload {L : Library} (MAX : nat) (A Y_init : Matrix)
    (m n k : nat) (s : solver_state L) (i : nat) p a r :
  1 <= i ->
  solver_calls (trace (execute MAX A Y_init m n k s).2) !! (i - 1)
    = Some (p, a, Solved r) ->
  sol_status r <> OPTIMAL ->
  run MAX A Y_init m n k s = Raised (Exception "Solver did not converge!") /\
  ns_iter_num (globals (execute MAX A Y_init m n k s).2) = Some i /\
  ns_prob (globals (execute MAX A Y_init m n k s).2)
    = Some {| prob_problem := p; prob_solution := Some r |}.
Proof.
  intros Hi Hlook Hst.
  destruct (failing_call MAX A Y_init m n k s (i - 1) p a r Hlook Hst)
    as (Hres & _ & _ & Hiter & _ & Hprob).
  replace (S (i - 1)) with i in Hiter by lia.
  repeat split; try assumption. apply run_raised. exact Hres.
Qed.

(** C6 (as amended). The cell has no shape check of its own. When the
    library refuses the objective built from [A], [Y_init] and the fresh
    [k x n] variable (as CVXPY does when the row counts of [Y_init] and [A]
    differ), the run fails inside the first iteration with the library's
    error: the loop has started, [X] is already bound to the fresh variable,
    and no solve call has been made. *)
Theorem shape_error_in_first_iteration {L : Library} (MAX : nat) (A Y_init : Matrix)
    (m n k : nat) (s : solver_state L) (msg : string) :
  1 <= MAX ->
  validate L {| target := A; left := NDArray Y_init;
                right := CpVariable (k, n) None |} = Some msg ->
  (execute MAX A Y_init m n k s).1 = Raised (CvxpyError msg) /\
  solver_calls (trace (execute MAX A Y_init m n k s).2) = [] /\
  trace (execute MAX A Y_init m n k s).2
    = [Build {| target := A; left := NDArray Y_init;
                right := CpVariable (k, n) None |} (Some msg)] /\
  ns_iter_num (globals (execute MAX A Y_init m n k s).2) = Some 1 /\
  ns_X (globals (execute MAX A Y_init m n k s).2) = Some (CpVariable (k, n) None) /\
  ns_Y (globals (execute MAX A Y_init m n k s).2) = NDArray Y_init.
Proof.
  intros HMAX Hval. destruct MAX as [| MAX']; [lia |].
  unfold execute, alternating_minimization, start, problem_data.
  unfold bind, get_globals, put_globals. simpl.
  unfold bind, iteration, build_objective, bind, get_globals, put_globals, ret,
    raise, log. simpl.
  rewrite Hval. simpl. repeat split.
Qed.

(** C7. Given that the solver's solution is entrywise at least [- eps]
    whenever it reports optimal, and that the initial guess is so too (it is
    still the returned [Y] when fewer than two iterations run), every entry
    of the returned [Y] and of the returned [X] is at least [- eps]. *)
Theorem factors_nonnegative {L : Library} (eps : scalar) (MAX : nat)
    (A Y_init : Matrix) (m n k : nat) (s : solver_state L) Y X residual :
  solver_nonneg L eps ->
  2 <= MAX \/ within_tolerance eps Y_init ->
  run MAX A Y_init m n k s = Returned (Y, X, residual) ->
  nonneg_factor eps Y /\
  (1 <= MAX -> exists x, X = Some x /\ nonneg_factor eps x).
Proof.
  intros Hsolver HY Hrun. apply run_returned in Hrun.
  destruct Hrun as (w & Hex & -> & -> & _).
  pose proof (execute_summary MAX A Y_init m n k s) as Hsum.
  rewrite Hex in Hsum.
  assert (Hfrom : forall idx v, from_solve w idx v -> nonneg_factor eps v).
  { intros idx v (p & r & _ & (s1 & s2 & Hans) & Hst & ->).
    destruct (Hsolver _ _ _ _ _ Hans Hst) as (sol & Hsol & Htol).
    exists sol. unfold primal_value. rewrite Hsol. split; [reflexivity | exact Htol]. }
  split.
  - destruct (decide (MAX < 2)) as [Hlt | Hge].
    + rewrite (inv_Y0 _ _ _ _ Hsum Hlt). simpl.
      destruct HY as [HMAX | HYi]; [lia |]. exists Y_init. split; [reflexivity | exact HYi].
    + destruct (inv_Y _ _ _ _ Hsum ltac:(lia)) as (idx & _ & _ & Hv).
      exact (Hfrom _ _ Hv).
  - intros HMAX.
    destruct (inv_X _ _ _ _ Hsum ltac:(lia)) as (idx & x & _ & _ & HXx & Hv).
    exists x. split; [exact HXx | exact (Hfrom _ _ Hv)].
Qed.

(** C8. Given that the solver's objective value is at least 0 whenever it
    reports optimal, every value of the returned residual history is at
    least 0. *)
Theorem residual_nonnegative {L : Library} (MAX : nat) (A Y_init : Matrix)
    (m n k : nat) (s : solver_state L) Y X (residual : list scalar) :
  solver_value_nonneg L ->
  run MAX A Y_init m n k s = Returned (Y, X, residual) ->
  Forall (fun v => PrimFloat.leb 0%float v = true) residual.
Proof.
  intros Hsolver Hrun. apply run_returned in Hrun.
  destruct Hrun as (w & Hex & _ & _ & ->).
  pose proof (execute_summary MAX A Y_init m n k s) as Hsum.
  rewrite Hex in Hsum.
  apply Forall_lookup. intros i v Hlook.
  assert (Hi : i < MAX).
  { rewrite <- (inv_residual _ _ _ _ Hsum). eapply lookup_lt_Some. exact Hlook. }
  destruct (inv_completed _ _ _ _ Hsum i Hi)
    as (p & r & _ & (s1 & s2 & Hans) & Hst & _ & Hres & _).
  pose proof (eq_trans (eq_sym Hlook) Hres) as [= ->].
  exact (Hsolver _ _ _ _ _ Hans Hst).
Qed.

(** C9. The input matrix [A] is never written: after the cell, completed or
    aborted, the global [A] is what it was before, on fresh problem data and
    on any globals the cell is started with. *)
Theorem input_matrix_unchanged {L : Library} (MAX : nat) (A Y_init : Matrix)
    (m n k : nat) (s : solver_state L) :
  ns_A (globals (execute MAX A Y_init m n k s).2) = A /\
  forall g : namespace,
    ns_A (globals (alternating_minimization MAX (start g s)).2) = ns_A g.
Proof.
  assert (Hgen : forall g : namespace,
             ns_A (globals (alternating_minimization MAX (start g s)).2) = ns_A g).
  { intros g. pose proof (cell_summary g MAX s) as Hsum.
    destruct (alternating_minimization MAX (start g s)) as [[[] | e] w]; simpl.
    - destruct (inv_data _ _ _ _ Hsum) as (HA & _). exact HA.
    - destruct Hsum as (i & _ & Hab).
      destruct (ab_data _ _ _ _ _ Hab) as (HA & _). exact HA. }
  split; [| exact Hgen]. exact (Hgen (problem_data A Y_init m n k)).
Qed.

(** C10. [Y] is only replaced on even iterations: a run of one iteration
    that returns hands back [Y_init] itself as [Y], and an odd iteration,
    however it ends, leaves the global [Y] as it found it. *)
Theorem Y_kept_by_odd_iterations {L : Library} :
  (forall (A Y_init : Matrix) (m n k : nat) (s : solver_state L) Y X residual,
      run 1 A Y_init m n k s = Returned (Y, X, residual) -> Y = NDArray Y_init) /\
  (forall (i : nat) (w : world L),
      i mod 2 = 1 ->
      ns_Y (globals (iteration i w).2) = ns_Y (globals w)).
Proof.
  split.
  - intros A Y_init m n k s Y X residual Hrun. apply run_returned in Hrun.
    destruct Hrun as (w & Hex & -> & _).
    pose proof (execute_summary 1 A Y_init m n k s) as Hsum.
    rewrite Hex in Hsum. exact (inv_Y0 _ _ _ _ Hsum ltac:(lia)).
  - intros i w Hodd. apply Nat.eqb_eq in Hodd.
    unfold iteration, build_objective, bind, get_globals, put_globals, ret, raise,
      log, print, call_solver, store_solution.
    rewrite Hodd. simpl.
    destruct (validate L _); simpl; [reflexivity |].
    destruct (solve L _ _ _) as [[r | msg] s']; simpl; [| reflexivity].
    destruct (negb _); simpl; [reflexivity |].
    destruct (setitem _ _ _); simpl; reflexivity.
Qed.

(** ** The claims on concrete runs *)

Lemma full_within_tolerance (eps fill : scalar) (shape : nat * nat) :
  PrimFloat.leb (PrimFloat.opp eps) fill = true ->
  within_tolerance eps (full shape fill).
Proof.
  intros Heps. unfold within_tolerance, full.
  apply Forall_replicate, Forall_replicate. exact Heps.
Qed.

Lemma steady_nonneg (eps fill : scalar) :
  PrimFloat.leb (PrimFloat.opp eps) fill = true -> solver_nonneg (steady fill) eps.
Proof.
  intros Heps s p a r s' Hsolve _. simpl in Hsolve. injection Hsolve as <- _.
  eexists. split; [reflexivity |]. apply full_within_tolerance. exact Heps.
Qed.

Lemma steady_value_nonneg (fill : scalar) : solver_value_nonneg (steady fill).
Proof.
  intros s p a r s' Hsolve _. simpl in Hsolve. injection Hsolve as <- _. reflexivity.
Qed.

(** The notebook's sizes and count with the steady solver: the cell returns
    after 30 iterations. *)
Example notebook_run_returns :
  (execute (L:=steady 0%float) MAX_ITERS (zeros (10, 10)) (zeros (10, 5)) 10 10 5 tt).1
    = Returned tt /\
  ns_iter_num
    (globals (execute (L:=steady 0%float) MAX_ITERS (zeros (10, 10)) (zeros (10, 5)) 10 10 5 tt).2)
    = Some 30.
Proof. vm_compute. split; reflexivity. Qed.

Lemma phase_parity_witness :
  (1 <= 2 /\
   solver_calls
     (trace (execute (L:=steady 0%float) 3 (zeros (2, 2)) (zeros (2, 1)) 2 2 1 tt).2) !! (2 - 1)
     = Some ({| obj := {| target := zeros (2, 2); left := CpVariable (2, 1) None;
                          right := NDArray (zeros (1, 2)) |};
                constraints := [GeZero (CpVariable (2, 1) None)] |},
             scs_args,
             Solved {| sol_status := OPTIMAL; sol_value := 0.25%float;
                       sol_primal := Some (zeros (2, 1)) |})) /\
  (2 <= 3 /\
   solves_for_Y (zeros (2, 2)) 2 1
     {| obj := {| target := zeros (2, 2); left := CpVariable (2, 1) None;
                  right := NDArray (zeros (1, 2)) |};
        constraints := [GeZero (CpVariable (2, 1) None)] |}).
Proof.
  assert (H1 : 1 <= 2) by lia.
  assert (H2 : solver_calls
     (trace (execute (L:=steady 0%float) 3 (zeros (2, 2)) (zeros (2, 1)) 2 2 1 tt).2) !! (2 - 1)
     = Some ({| obj := {| target := zeros (2, 2); left := CpVariable (2, 1) None;
                          right := NDArray (zeros (1, 2)) |};
                constraints := [GeZero (CpVariable (2, 1) None)] |},
             scs_args,
             Solved {| sol_status := OPTIMAL; sol_value := 0.25%float;
                       sol_primal := Some (zeros (2, 1)) |}))
    by (vm_compute; reflexivity).
  split; [split; [exact H1 | exact H2] |].
  exact (phase_parity (L:=steady 0%float) 3 (zeros (2, 2)) (zeros (2, 1)) 2 2 1 tt 2 _ _ _ H1 H2).
Defined.

Lemma residual_history_witness :
  run (L:=scripted) 2 (zeros (2, 2)) (zeros (2, 1)) 2 2 1
      [(OPTIMAL, 1.5%float); (OPTIMAL, 0.5%float)]
    = Returned (NDArray (zeros (2, 1)), Some (NDArray (zeros (1, 2))),
                [1.5%float; 0.5%float]) /\
  (length [1.5%float; 0.5%float] = 2 /\
   forall i, 1 <= i <= 2 ->
     exists p r,
       solver_calls
         (trace (execute (L:=scripted) 2 (zeros (2, 2)) (zeros (2, 1)) 2 2 1
                   [(OPTIMAL, 1.5%float); (OPTIMAL, 0.5%float)]).2) !! (i - 1)
         = Some (p, scs_args, Solved r) /\
       sol_status r = OPTIMAL /\
       [1.5%float; 0.5%float] !! (i - 1) = Some (sol_value r)).
Proof.
  assert (H : run (L:=scripted) 2 (zeros (2, 2)) (zeros (2, 1)) 2 2 1
                [(OPTIMAL, 1.5%float); (OPTIMAL, 0.5%float)]
              = Returned (NDArray (zeros (2, 1)), Some (NDArray (zeros (1, 2))),
                          [1.5%float; 0.5%float]))
    by (vm_compute; reflexivity).
  split; [exact H |].
  exact (residual_history (L:=scripted) 2 (zeros (2, 2)) (zeros (2, 1)) 2 2 1 _ _ _ _ H).
Defined.

Lemma full_iteration_count_witness :
  Forall (fun ev => succeeded ev = true)
    (trace (execute (L:=steady 0%float) 3 (zeros (2, 2)) (zeros (2, 1)) 2 2 1 tt).2) /\
  ((execute (L:=steady 0%float) 3 (zeros (2, 2)) (zeros (2, 1)) 2 2 1 tt).1 = Returned tt /\
   length (solver_calls
             (trace (execute (L:=steady 0%float) 3 (zeros (2, 2)) (zeros (2, 1)) 2 2 1 tt).2)) = 3 /\
   length (stdout (execute (L:=steady 0%float) 3 (zeros (2, 2)) (zeros (2, 1)) 2 2 1 tt).2) = 3 /\
   (0 < 3 ->
    ns_iter_num (globals (execute (L:=steady 0%float) 3 (zeros (2, 2)) (zeros (2, 1)) 2 2 1 tt).2)
      = Some 3)).
Proof.
  assert (H : Forall (fun ev => succeeded ev = true)
                (trace (execute (L:=steady 0%float) 3 (zeros (2, 2)) (zeros (2, 1)) 2 2 1 tt).2))
    by (vm_compute; repeat constructor).
  split; [exact H |].
  exact (full_iteration_count (L:=steady 0%float) 3 (zeros (2, 2)) (zeros (2, 1)) 2 2 1 tt H).
Defined.

(** C5, counterexample. Two runs on the same data: in the first the solver
    reports "infeasible" at iteration 1, in the second "unbounded" at
    iteration 2. Both raise the same exception value, so neither the
    iteration number nor the status can be read from it. *)
Lemma exception_omits_iteration_and_status :
  let run1 := run (L:=scripted) 3 (zeros (2, 2)) (zeros (2, 1)) 2 2 1
                [("infeasible"%string, infinity)] in
  let run2 := run (L:=scripted) 3 (zeros (2, 2)) (zeros (2, 1)) 2 2 1
                [(OPTIMAL, 1.5%float); ("unbounded"%string, neg_infinity)] in
  let calls1 := solver_calls
                  (trace (execute (L:=scripted) 3 (zeros (2, 2)) (zeros (2, 1)) 2 2 1
                            [("infeasible"%string, infinity)]).2) in
  let calls2 := solver_calls
                  (trace (execute (L:=scripted) 3 (zeros (2, 2)) (zeros (2, 1)) 2 2 1
                            [(OPTIMAL, 1.5%float); ("unbounded"%string, neg_infinity)]).2) in
  (exists p a r, calls1 !! 0 = Some (p, a, Solved r) /\
                 sol_status r = "infeasible"%string) /\
  (exists p a r, calls2 !! 1 = Some (p, a, Solved r) /\
                 sol_status r = "unbounded"%string) /\
  run1 = Raised (Exception "Solver did not converge!") /\
  run2 = Raised (Exception "Solver did not converge!") /\
  ~ (exists info : exn -> nat * string,
        (forall e, run1 = Raised e -> info e = (1, "infeasible"%string)) /\
        (forall e, run2 = Raised e -> info e = (2, "unbounded"%string))).
Proof.
  cbv zeta.
  assert (H1 : run (L:=scripted) 3 (zeros (2, 2)) (zeros (2, 1)) 2 2 1
                 [("infeasible"%string, infinity)]
               = Raised (Exception "Solver did not converge!"))
    by (vm_compute; reflexivity).
  assert (H2 : run (L:=scripted) 3 (zeros (2, 2)) (zeros (2, 1)) 2 2 1
                 [(OPTIMAL, 1.5%float); ("unbounded"%string, neg_infinity)]
               = Raised (Exception "Solver did not converge!"))
    by (vm_compute; reflexivity).
  split; [| split; [| split; [exact H1 | split; [exact H2 |]]]].
  - vm_compute. eexists _, _, _. split; reflexivity.
  - vm_compute. eexists _, _, _. split; reflexivity.
  - intros (info & Hi1 & Hi2).
    specialize (Hi1 _ H1). specialize (Hi2 _ H2).
    rewrite Hi1 in Hi2. discriminate.
Qed.

Lemma convergence_error_payload_witness :
  (1 <= 2 /\
   solver_calls
     (trace (execute (L:=scripted) 3 (zeros (2, 2)) (zeros (2, 1)) 2 2 1
               [(OPTIMAL, 1.5%float); ("unbounded"%string, neg_infinity)]).2) !! (2 - 1)
     = Some ({| obj := {| target := zeros (2, 2); left := CpVariable (2, 1) None;
                          right := NDArray (zeros (1, 2)) |};
                constraints := [GeZero (CpVariable (2, 1) None)] |},
             scs_args,
             Solved {| sol_status := "unbounded"; sol_value := neg_infinity;
                       sol_primal := None |}) /\
   "unbounded"%string <> OPTIMAL) /\
  (run (L:=scripted) 3 (zeros (2, 2)) (zeros (2, 1)) 2 2 1
       [(OPTIMAL, 1.5%float); ("unbounded"%string, neg_infinity)]
     = Raised (Exception "Solver did not converge!") /\
   ns_iter_num
     (globals (execute (L:=scripted) 3 (zeros (2, 2)) (zeros (2, 1)) 2 2 1
                 [(OPTIMAL, 1.5%float); ("unbounded"%string, neg_infinity)]).2)
     = Some 2 /\
   ns_prob
     (globals (execute (L:=scripted) 3 (zeros (2, 2)) (zeros (2, 1)) 2 2 1
                 [(OPTIMAL, 1.5%float); ("unbounded"%string, neg_infinity)]).2)
     = Some {| prob_problem :=
                 {| obj := {| target := zeros (2, 2); left := CpVariable (2, 1) None;
                              right := NDArray (zeros (1, 2)) |};
                    constraints := [GeZero (CpVariable (2, 1) None)] |};
               prob_solution :=
                 Some {| sol_status := "unbounded"; sol_value := neg_infinity;
                         sol_primal := None |} |}).
Proof.
  assert (H1 : 1 <= 2) by lia.
  assert (H2 : solver_calls
     (trace (execute (L:=scripted) 3 (zeros (2, 2)) (zeros (2, 1)) 2 2 1
               [(OPTIMAL, 1.5%float); ("unbounded"%string, neg_infinity)]).2) !! (2 - 1)
     = Some ({| obj := {| target := zeros (2, 2); left := CpVariable (2, 1) None;
                          right := NDArray (zeros (1, 2)) |};
                constraints := [GeZero (CpVariable (2, 1) None)] |},
             scs_args,
             Solved {| sol_status := "unbounded"; sol_value := neg_infinity;
                       sol_primal := None |}))
    by (vm_compute; reflexivity).
  assert (H3 : "unbounded"%string <> OPTIMAL) by discriminate.
  split; [split; [exact H1 | split; [exact H2 | exact H3]] |].
  exact (convergence_error_payload (L:=scripted) 3 (zeros (2, 2)) (zeros (2, 1)) 2 2 1
           _ 2 _ _ _ H1 H2 H3).
Defined.

(** C6, counterexample. A 10 x 10 target with an 8 x 5 initial guess. With
    any library at all the global [iter_num] is bound when the cell ends:
    nothing stops the run before the loop. With a library that applies
    CVXPY's shape rule the failure is the library's error, raised in
    iteration 1 with [X] already bound to the fresh variable. *)
Lemma shape_mismatch_reaches_the_loop :
  (forall (L : Library) (s : solver_state L),
      ns_iter_num
        (globals (execute (L:=L) MAX_ITERS (zeros (10, 10)) (zeros (8, 5)) 10 10 5 s).2)
        <> None) /\
  (execute (L:=scripted) MAX_ITERS (zeros (10, 10)) (zeros (8, 5)) 10 10 5 []).1
    = Raised (CvxpyError "ValueError") /\
  ns_iter_num
    (globals (execute (L:=scripted) MAX_ITERS (zeros (10, 10)) (zeros (8, 5)) 10 10 5 []).2)
    = Some 1 /\
  ns_X
    (globals (execute (L:=scripted) MAX_ITERS (zeros (10, 10)) (zeros (8, 5)) 10 10 5 []).2)
    = Some (CpVariable (5, 10) None).
Proof.
  split.
  - intros L s.
    pose proof (execute_summary MAX_ITERS (zeros (10, 10)) (zeros (8, 5)) 10 10 5 s) as Hsum.
    destruct (execute MAX_ITERS (zeros (10, 10)) (zeros (8, 5)) 10 10 5 s)
      as [[[] | e] w]; simpl.
    + rewrite (inv_iter _ _ _ _ Hsum); [discriminate | unfold MAX_ITERS; lia].
    + destruct Hsum as (i & _ & Hab). rewrite (ab_iter _ _ _ _ _ Hab). discriminate.
  - vm_compute. repeat split.
Qed.

Lemma shape_error_in_first_iteration_witness :
  (1 <= MAX_ITERS /\
   validate scripted {| target := zeros (10, 10); left := NDArray (zeros (8, 5));
                        right := CpVariable (5, 10) None |} = Some "ValueError"%string) /\
  ((execute (L:=scripted) MAX_ITERS (zeros (10, 10)) (zeros (8, 5)) 10 10 5 []).1
     = Raised (CvxpyError "ValueError") /\
   solver_calls
     (trace (execute (L:=scripted) MAX_ITERS (zeros (10, 10)) (zeros (8, 5)) 10 10 5 []).2)
     = [] /\
   trace (execute (L:=scripted) MAX_ITERS (zeros (10, 10)) (zeros (8, 5)) 10 10 5 []).2
     = [Build {| target := zeros (10, 10); left := NDArray (zeros (8, 5));
                 right := CpVariable (5, 10) None |} (Some "ValueError"%string)] /\
   ns_iter_num
     (globals (execute (L:=scripted) MAX_ITERS (zeros (10, 10)) (zeros (8, 5)) 10 10 5 []).2)
     = Some 1 /\
   ns_X
     (globals (execute (L:=scripted) MAX_ITERS (zeros (10, 10)) (zeros (8, 5)) 10 10 5 []).2)
     = Some (CpVariable (5, 10) None) /\
   ns_Y
     (globals (execute (L:=scripted) MAX_ITERS (zeros (10, 10)) (zeros (8, 5)) 10 10 5 []).2)
     = NDArray (zeros (8, 5))).
Proof.
  assert (H1 : 1 <= MAX_ITERS) by (unfold MAX_ITERS; lia).
  assert (H2 : validate scripted
                 {| target := zeros (10, 10); left := NDArray (zeros (8, 5));
                    right := CpVariable (5, 10) None |} = Some "ValueError"%string)
    by reflexivity.
  split; [split; [exact H1 | exact H2] |].
  exact (shape_error_in_first_iteration (L:=scripted) MAX_ITERS (zeros (10, 10))
           (zeros (8, 5)) 10 10 5 [] "ValueError" H1 H2).
Defined.

Lemma factors_nonnegative_witness :
  (solver_nonneg (steady slack) tolerance /\
   (2 <= 3 \/ within_tolerance tolerance (zeros (2, 1))) /\
   run (L:=steady slack) 3 (zeros (2, 2)) (zeros (2, 1)) 2 2 1 tt
     = Returned (NDArray (full (2, 1) slack), Some (NDArray (full (1, 2) slack)),
                 [0.25%float; 0.25%float; 0.25%float])) /\
  (nonneg_factor tolerance (NDArray (full (2, 1) slack)) /\
   (1 <= 3 ->
    exists x, Some (NDArray (full (1, 2) slack)) = Some x /\
              nonneg_factor tolerance x)).
Proof.
  assert (H1 : solver_nonneg (steady slack) tolerance)
    by (apply steady_nonneg; reflexivity).
  assert (H2 : 2 <= 3 \/ within_tolerance tolerance (zeros (2, 1)))
    by (left; lia).
  assert (H3 : run (L:=steady slack) 3 (zeros (2, 2)) (zeros (2, 1)) 2 2 1 tt
               = Returned (NDArray (full (2, 1) slack), Some (NDArray (full (1, 2) slack)),
                           [0.25%float; 0.25%float; 0.25%float]))
    by (vm_compute; reflexivity).
  split; [split; [exact H1 | split; [exact H2 | exact H3]] |].
  exact (factors_nonnegative (L:=steady slack) tolerance 3 (zeros (2, 2)) (zeros (2, 1))
           2 2 1 tt _ _ _ H1 H2 H3).
Defined.

Lemma residual_nonnegative_witness :
  (solver_value_nonneg (steady slack) /\
   run (L:=steady slack) 3 (zeros (2, 2)) (zeros (2, 1)) 2 2 1 tt
     = Returned (NDArray (full (2, 1) slack), Some (NDArray (full (1, 2) slack)),
                 [0.25%float; 0.25%float; 0.25%float])) /\
  Forall (fun v => PrimFloat.leb 0%float v = true) [0.25%float; 0.25%float; 0.25%float].
Proof.
  assert (H1 : solver_value_nonneg (steady slack)) by exact (steady_value_nonneg slack).
  assert (H2 : run (L:=steady slack) 3 (zeros (2, 2)) (zeros (2, 1)) 2 2 1 tt
               = Returned (NDArray (full (2, 1) slack), Some (NDArray (full (1, 2) slack)),
                           [0.25%float; 0.25%float; 0.25%float]))
    by (vm_compute; reflexivity).
  split; [split; [exact H1 | exact H2] |].
  exact (residual_nonnegative (L:=steady slack) 3 (zeros (2, 2)) (zeros (2, 1)) 2 2 1 tt
           _ _ _ H1 H2).
Defined.

(** ** Further properties of the loop *)

Lemma parity_succ (j : nat) : (S j mod 2 =? 1) = negb (j mod 2 =? 1).
Proof.
  assert (Hj : j mod 2 < 2) by (apply Nat.mod_upper_bound; lia).
  assert (HS : S j mod 2 < 2) by (apply Nat.mod_upper_bound; lia).
  pose proof (Nat.div_mod_eq j 2) as Ej.
  pose proof (Nat.div_mod_eq (S j) 2) as ES.
  destruct (Nat.eqb_spec (S j mod 2) 1); destruct (Nat.eqb_spec (j mod 2) 1); simpl;
    try reflexivity; exfalso; lia.
Qed.

Lemma starts_from_snoc (Y_init : Matrix) (calls : list call) (c : call) :
  starts_from Y_init calls ->
  (length calls = 0 -> left (obj c.1.1) = NDArray Y_init) ->
  starts_from Y_init (calls ++ [c]).
Proof.
  intros Hold Hnew p a out Hlook.
  destruct calls as [| c0 calls'].
  - simpl in Hlook. injection Hlook as ->. apply Hnew. reflexivity.
  - apply (Hold p a out). exact Hlook.
Qed.

Lemma linked_snoc (calls : list call) (c : call) :
  linked calls ->
  (forall p a r,
      1 <= length calls ->
      calls !! (length calls - 1) = Some (p, a, Solved r) ->
      fixed_operand (S (length calls)) c.1.1 = primal_value r) ->
  linked (calls ++ [c]).
Proof.
  unfold call in *. intros Hold Hnew idx p a r p' a' out' H1 H2.
  assert (Hlt : S idx < length (calls ++ [c])) by (eapply lookup_lt_Some; exact H2).
  rewrite length_app in Hlt. simpl in Hlt.
  destruct (decide (S idx < length calls)) as [Hin | Hlast].
  - rewrite lookup_app_l in H1 by lia. rewrite lookup_app_l in H2 by lia.
    exact (Hold _ _ _ _ _ _ _ H1 H2).
  - assert (Hidx : S idx = length calls) by lia.
    rewrite lookup_app_l in H1 by lia.
    rewrite lookup_app_r in H2 by lia.
    replace (S idx - length calls) with 0 in H2 by lia. simpl in H2.
    injection H2 as ->. simpl in Hnew.
    rewrite Hidx. apply (Hnew p a r); [lia |].
    replace (length calls - 1) with idx by lia. exact H1.
Qed.

Section Flow.
Context {L : Library}.
Variable g0 : namespace.
Variable N : nat.

Local Abbreviation inv := (inv (L:=L) g0 N).
Local Abbreviation flow := (flow (L:=L) g0 N).
Local Abbreviation stopped := (stopped (L:=L) g0 N).

Lemma primal_value_unfold (r : solution) :
  match sol_primal r with Some a => NDArray a | None => PyNone end = primal_value r.
Proof. reflexivity. Qed.

Lemma flow_step (j : nat) (w : world L) :
  inv j w -> flow j w -> j < N ->
  match iteration (S j) w with
  | (Returned _, w') => flow (S j) w'
  | (Raised e, w') => stopped (S j) w'
  end.
Proof.
  intros Hinv [Hfirst Hlink Hsolved Hkept Hzeros] HjN.
  pose proof (inv_residual _ _ _ _ Hinv) as Hr.
  pose proof (inv_calls _ _ _ _ Hinv) as Hc.
  pose proof (inv_Y0 _ _ _ _ Hinv) as HY0.
  unfold iteration, build_objective, bind, get_globals, put_globals, ret, raise,
    log, print, call_solver.
  pose proof (parity_succ j) as Hsucc.
  destruct (S j mod 2 =? 1) eqn:Hpar; simpl.
  - (* odd: the fixed operand is [Y] *)
    assert (Hj2 : (j mod 2 =? 1) = false).
    { destruct (j mod 2 =? 1); [discriminate | reflexivity]. }
    clear Hsucc.
    pose (P := {| obj := {| target := ns_A (globals w); left := ns_Y (globals w);
                            right := CpVariable (ns_k (globals w), ns_n (globals w)) None |};
                  constraints :=
                    [GeZero (CpVariable (ns_k (globals w), ns_n (globals w)) None)] |}).
    assert (Hfirst' : forall out,
               starts_from (ns_Y_init g0)
                 (solver_calls (trace w) ++ [(P, scs_args, out)])).
    { intros out. apply starts_from_snoc; [exact Hfirst |].
      simpl. intros Hlen. unfold call in Hlen. apply HY0. lia. }
    assert (Hlink' : forall out,
               linked (solver_calls (trace w) ++ [(P, scs_args, out)])).
    { intros out. apply linked_snoc; [exact Hlink |].
      simpl. intros p a r Hlen Hlook. unfold call in *. rewrite Hc in *.
      unfold fixed_operand. rewrite Hpar. simpl.
      destruct (Hsolved Hlen) as (p0 & r0 & Hcall & Hsf & _).
      rewrite Hcall in Hlook. injection Hlook as <- <- <-.
      unfold solved_factor in Hsf. rewrite Hj2 in Hsf. injection Hsf as ->.
      reflexivity. }
    destruct (validate L _) as [msg |] eqn:Hval; simpl.
    + split; simpl.
      * rewrite solver_calls_app. simpl. rewrite app_nil_r. exact Hfirst.
      * rewrite solver_calls_app. simpl. rewrite app_nil_r. exact Hlink.
      * intros idx H1 H2. apply Hzeros; lia.
    + destruct (solve L _ _ _) as [out s'] eqn:Hsolve; simpl.
      destruct out as [r | msg]; simpl.
      * unfold store_solution. rewrite Hpar. simpl.
        destruct (negb _) eqn:Hst; simpl.
        -- split; simpl.
           ++ rewrite !solver_calls_app. simpl. rewrite app_nil_r. apply Hfirst'.
           ++ rewrite !solver_calls_app. simpl. rewrite app_nil_r. apply Hlink'.
           ++ intros idx H1 H2. apply Hzeros; lia.
        -- rewrite setitem_in_range by (simpl; lia). simpl.
           replace (j - 0) with j by lia.
           split; simpl.
           ++ rewrite !solver_calls_app. simpl. rewrite app_nil_r. apply Hfirst'.
           ++ rewrite !solver_calls_app. simpl. rewrite app_nil_r. apply Hlink'.
           ++ intros _. exists P, r. replace (j - 0) with j by lia.
              split; [| split].
              ** rewrite !solver_calls_app. simpl. rewrite app_nil_r.
                 apply lookup_snoc. exact Hc.
              ** unfold solved_factor. rewrite Hpar. reflexivity.
              ** reflexivity.
           ++ intros Hge. destruct (Hsolved ltac:(lia)) as (p0 & r0 & Hcall & Hsf & _).
              exists p0, r0. split.
              ** rewrite !solver_calls_app. simpl. rewrite app_nil_r.
                 apply lookup_app_l_Some. exact Hcall.
              ** unfold kept_factor. rewrite Hpar. simpl.
                 unfold solved_factor in Hsf. rewrite Hj2 in Hsf. exact Hsf.
           ++ intros idx H1 H2.
              rewrite list_lookup_insert_ne by lia. apply Hzeros; lia.
      * split; simpl.
        -- rewrite !solver_calls_app. simpl. rewrite app_nil_r. apply Hfirst'.
        -- rewrite !solver_calls_app. simpl. rewrite app_nil_r. apply Hlink'.
        -- intros idx H1 H2. apply Hzeros; lia.
  - (* even: the fixed operand is [X], solved by the iteration before *)
    assert (Hj2 : (j mod 2 =? 1) = true).
    { destruct (j mod 2 =? 1); [reflexivity | discriminate]. }
    clear Hsucc.
    assert (Hj : 1 <= j) by (apply odd_first; exact Hpar).
    destruct (Hsolved Hj) as (p0 & r0 & Hcall & Hsf & _).
    unfold solved_factor in Hsf. rewrite Hj2 in Hsf.
    rewrite Hsf. simpl.
    pose (P := {| obj := {| target := ns_A (globals w);
                            left := CpVariable (ns_m (globals w), ns_k (globals w)) None;
                            right := primal_value r0 |};
                  constraints :=
                    [GeZero (CpVariable (ns_m (globals w), ns_k (globals w)) None)] |}).
    assert (Hfirst' : forall out,
               starts_from (ns_Y_init g0)
                 (solver_calls (trace w) ++ [(P, scs_args, out)])).
    { intros out. apply starts_from_snoc; [exact Hfirst |].
      intros Hlen. unfold call in Hlen. lia. }
    assert (Hlink' : forall out,
               linked (solver_calls (trace w) ++ [(P, scs_args, out)])).
    { intros out. apply linked_snoc; [exact Hlink |].
      simpl. intros p a r Hlen Hlook. unfold call in *. rewrite Hc in *.
      unfold fixed_operand. rewrite Hpar. simpl.
      rewrite Hcall in Hlook. injection Hlook as <- <- <-. reflexivity. }
    destruct (validate L _) as [msg |] eqn:Hval; simpl.
    + split; simpl.
      * rewrite solver_calls_app. simpl. rewrite app_nil_r. exact Hfirst.
      * rewrite solver_calls_app. simpl. rewrite app_nil_r. exact Hlink.
      * intros idx H1 H2. apply Hzeros; lia.
    + destruct (solve L _ _ _) as [out s'] eqn:Hsolve; simpl.
      destruct out as [r | msg]; simpl.
      * unfold store_solution. rewrite Hpar. simpl.
        destruct (negb _) eqn:Hst; simpl.
        -- split; simpl.
           ++ rewrite !solver_calls_app. simpl. rewrite app_nil_r. apply Hfirst'.
           ++ rewrite !solver_calls_app. simpl. rewrite app_nil_r. apply Hlink'.
           ++ intros idx H1 H2. apply Hzeros; lia.
        -- rewrite setitem_in_range by (simpl; lia). simpl.
           replace (j - 0) with j by lia.
           split; simpl.
           ++ rewrite !solver_calls_app. simpl. rewrite app_nil_r. apply Hfirst'.
           ++ rewrite !solver_calls_app. simpl. rewrite app_nil_r. apply Hlink'.
           ++ intros _. exists P, r. replace (j - 0) with j by lia.
              split; [| split].
              ** rewrite !solver_calls_app. simpl. rewrite app_nil_r.
                 apply lookup_snoc. exact Hc.
              ** unfold solved_factor. rewrite Hpar. reflexivity.
              ** reflexivity.
           ++ intros Hge. exists p0, r0. split.
              ** rewrite !solver_calls_app. simpl. rewrite app_nil_r.
                 apply lookup_app_l_Some. exact Hcall.
              ** unfold kept_factor. rewrite Hpar. simpl. exact Hsf.
           ++ intros idx H1 H2.
              rewrite list_lookup_insert_ne by lia. apply Hzeros; lia.
      * split; simpl.
        -- rewrite !solver_calls_app. simpl. rewrite app_nil_r. apply Hfirst'.
        -- rewrite !solver_calls_app. simpl. rewrite app_nil_r. apply Hlink'.
        -- intros idx H1 H2. apply Hzeros; lia.
Qed.

(** Both invariants along the loop. *)
Lemma flow_loop (len : nat) : forall (j : nat) (w : world L),
  inv j w -> flow j w -> j + len <= N ->
  match for_each (seq (S j) len) iteration w with
  | (Returned _, w') => inv (j + len) w' /\ flow (j + len) w'
  | (Raised e, w') =>
      exists i, j < i <= j + len /\ aborted g0 N i e w' /\ stopped i w'
  end.
Proof.
  induction len as [| len IH]; intros j w Hinv Hflow Hle; simpl.
  - replace (j + 0) with j by lia. split; assumption.
  - unfold bind.
    pose proof (iteration_step g0 N j w Hinv) as Hstep.
    pose proof (flow_step j w Hinv Hflow) as Hfstep.
    destruct (iteration (S j) w) as [[[] | e] w1].
    + specialize (IH (S j) w1 (Hstep ltac:(lia)) (Hfstep ltac:(lia)) ltac:(lia)).
      destruct (for_each (seq (S (S j)) len) iteration w1) as [[[] | e] w2].
      * replace (j + S len) with (S j + len) by lia. exact IH.
      * destruct IH as (i & Hi & Hab & Hst). exists i.
        split; [lia |]. split; assumption.
    + exists (S j). split; [lia |]. split; [apply Hstep | apply Hfstep]; lia.
Qed.

Lemma cell_flow (s : solver_state L) :
  match alternating_minimization N (start g0 s) with
  | (Returned _, w') => inv N w' /\ flow N w'
  | (Raised e, w') =>
      exists i, 1 <= i <= N /\ aborted g0 N i e w' /\ stopped i w'
  end.
Proof.
  unfold alternating_minimization, bind, get_globals, put_globals, start. simpl.
  match goal with
  | |- match for_each _ _ ?w with _ => _ end =>
      pose proof (flow_loop N 0 w) as Hloop
  end.
  simpl in Hloop.
  match type of Hloop with
  | ?P -> ?Q -> _ => assert (Hinv : P); [| assert (Hflow : Q)]
  end.
  - split; simpl; try reflexivity; try lia.
    + unfold same_data. simpl. repeat split.
    + unfold np_zeros. apply length_replicate.
  - split; simpl; try lia.
    + intros p a out Hlook. discriminate.
    + intros idx p a r p' a' out' Hlook. discriminate.
    + intros idx _ Hidx. unfold np_zeros. apply lookup_replicate_2. exact Hidx.
  - specialize (Hloop Hinv Hflow (le_n N)).
    destruct (for_each (seq 1 N) iteration _) as [[[] | e] w'].
    + exact Hloop.
    + destruct Hloop as (i & Hi & Hab & Hst). exists i.
      split; [lia |]. split; assumption.
Qed.

End Flow.

(** ** Running the cell again *)

Section Rerun.
Context {L : Library}.

(** The first iteration overwrites [iter_num], [X] and [prob] before it
    reads them: from two states that differ in these names only it gives the
    same result, and the same state when it returns. *)
Lemma first_iteration_forgets (w1 w2 : world L) :
  stdout w1 = stdout w2 -> lib w1 = lib w2 -> trace w1 = trace w2 ->
  same_data (globals w1) (globals w2) ->
  ns_Y (globals w1) = ns_Y (globals w2) ->
  ns_residual (globals w1) = ns_residual (globals w2) ->
  (iteration 1 w1).1 = (iteration 1 w2).1 /\
  match (iteration 1 w1).1 with
  | Returned _ => (iteration 1 w1).2 = (iteration 1 w2).2
  | Raised _ =>
      trace (iteration 1 w1).2 = trace (iteration 1 w2).2 /\
      stdout (iteration 1 w1).2 = stdout (iteration 1 w2).2 /\
      lib (iteration 1 w1).2 = lib (iteration 1 w2).2 /\
      ns_Y (globals (iteration 1 w1).2) = ns_Y (globals (iteration 1 w2).2) /\
      ns_X (globals (iteration 1 w1).2) = ns_X (globals (iteration 1 w2).2) /\
      ns_residual (globals (iteration 1 w1).2)
        = ns_residual (globals (iteration 1 w2).2) /\
      ns_iter_num (globals (iteration 1 w1).2)
        = ns_iter_num (globals (iteration 1 w2).2)
  end.
Proof.
  destruct w1 as [[A1 Yi1 m1 n1 k1 Y1 X1 res1 it1 pr1] so1 l1 t1].
  destruct w2 as [[A2 Yi2 m2 n2 k2 Y2 X2 res2 it2 pr2] so2 l2 t2].
  unfold same_data. simpl.
  intros -> -> -> (-> & -> & -> & -> & ->) -> ->.
  unfold iteration, build_objective, bind, get_globals, put_globals, ret, raise,
    log, print, call_solver, store_solution. simpl.
  destruct (validate L _) as [msg |]; simpl; [repeat split |].
  destruct (solve L _ _ _) as [[r | msg] s']; simpl; [| repeat split].
  destruct (negb _); simpl; [repeat split |].
  destruct (setitem _ _ _); simpl; repeat split.
Qed.

Lemma loop_forgets (M : nat) (w1 w2 : world L) :
  stdout w1 = stdout w2 -> lib w1 = lib w2 -> trace w1 = trace w2 ->
  same_data (globals w1) (globals w2) ->
  ns_Y (globals w1) = ns_Y (globals w2) ->
  ns_residual (globals w1) = ns_residual (globals w2) ->
  (for_each (seq 1 (S M)) iteration w1).1 = (for_each (seq 1 (S M)) iteration w2).1 /\
  trace (for_each (seq 1 (S M)) iteration w1).2
    = trace (for_each (seq 1 (S M)) iteration w2).2 /\
  stdout (for_each (seq 1 (S M)) iteration w1).2
    = stdout (for_each (seq 1 (S M)) iteration w2).2 /\
  lib (for_each (seq 1 (S M)) iteration w1).2
    = lib (for_each (seq 1 (S M)) iteration w2).2 /\
  ns_Y (globals (for_each (seq 1 (S M)) iteration w1).2)
    = ns_Y (globals (for_each (seq 1 (S M)) iteration w2).2) /\
  ns_X (globals (for_each (seq 1 (S M)) iteration w1).2)
    = ns_X (globals (for_each (seq 1 (S M)) iteration w2).2) /\
  ns_residual (globals (for_each (seq 1 (S M)) iteration w1).2)
    = ns_residual (globals (for_each (seq 1 (S M)) iteration w2).2) /\
  ns_iter_num (globals (for_each (seq 1 (S M)) iteration w1).2)
    = ns_iter_num (globals (for_each (seq 1 (S M)) iteration w2).2).
Proof.
  intros H1 H2 H3 H4 H5 H6.
  destruct (first_iteration_forgets w1 w2 H1 H2 H3 H4 H5 H6) as (Hres & Hrest).
  change (seq 1 (S M)) with (1 :: seq 2 M).
  cbn [for_each]. unfold bind.
  destruct (iteration 1 w1) as [[[] | e1] w1'];
    destruct (iteration 1 w2) as [[[] | e2] w2']; simpl in *; try discriminate.
  - subst w2'. repeat split.
  - injection Hres as ->. destruct Hrest as (? & ? & ? & ? & ? & ? & ?).
    repeat split; assumption.
Qed.

End Rerun.

(** ** Further properties, stated on whole runs *)

(** The printed lines and the history in any run of the cell, returned or
    aborted: one line per completed iteration, each slot of a completed
    iteration holding the printed value, every other slot still zero. *)
Lemma history_shape {L : Library} (MAX : nat) (g : namespace) (s : solver_state L) :
  let res := (alternating_minimization MAX (start g s)).1 in
  let w := (alternating_minimization MAX (start g s)).2 in
  length (ns_residual (globals w)) = MAX /\
  length (stdout w) <= MAX /\
  (res = Returned tt -> length (stdout w) = MAX) /\
  (forall idx, idx < length (stdout w) ->
     exists v, stdout w !! idx = Some (S idx, v) /\
               ns_residual (globals w) !! idx = Some v) /\
  (forall idx, length (stdout w) <= idx -> idx < MAX ->
     ns_residual (globals w) !! idx = Some 0%float).
Proof.
  pose proof (cell_flow g MAX s) as Hsum.
  destruct (alternating_minimization MAX (start g s)) as [[[] | e] w]; simpl.
  - destruct Hsum as (Hinv & Hflow).
    pose proof (inv_stdout _ _ _ _ Hinv) as Hlen.
    split; [exact (inv_residual _ _ _ _ Hinv) |]. split; [lia |].
    split; [intros _; exact Hlen |]. split.
    + intros idx Hidx.
      destruct (inv_completed _ _ _ _ Hinv idx ltac:(lia))
        as (p & r & _ & _ & _ & _ & Hres & Hout).
      exists (sol_value r). split; assumption.
    + intros idx H1 H2. apply (fl_zeros _ _ _ _ Hflow); lia.
  - destruct Hsum as (i & Hi & Hab & Hst).
    pose proof (ab_stdout _ _ _ _ _ Hab) as Hlen.
    split; [exact (ab_residual _ _ _ _ _ Hab) |]. split; [lia |].
    split; [discriminate |]. split.
    + intros idx Hidx.
      destruct (ab_completed _ _ _ _ _ Hab idx ltac:(lia))
        as (p & r & _ & _ & _ & _ & Hres & Hout).
      exists (sol_value r). split; assumption.
    + intros idx H1 H2. apply (st_zeros _ _ _ _ Hst); lia.
Qed.

(** X1. The lines the loop prints are numbered 1, 2, ... in order, one per
    completed iteration, never more than [MAX], and exactly [MAX] when the
    cell returns. *)
Theorem printed_lines_numbered {L : Library} (MAX : nat) (A Y_init : Matrix)
    (m n k : nat) (s : solver_state L) :
  let w := (execute MAX A Y_init m n k s).2 in
  fst <$> stdout w = seq 1 (length (stdout w)) /\
  length (stdout w) <= MAX /\
  ((execute MAX A Y_init m n k s).1 = Returned tt -> length (stdout w) = MAX).
Proof.
  intros w. subst w.
  destruct (history_shape MAX (problem_data A Y_init m n k) s)
    as (_ & Hle & Hret & Hlines & _).
  fold (execute MAX A Y_init m n k s) in *.
  split; [| split; assumption].
  apply list_eq. intros idx. rewrite list_lookup_fmap.
  destruct (decide (idx < length (stdout (execute MAX A Y_init m n k s).2)))
    as [Hlt | Hge].
  - destruct (Hlines idx Hlt) as (v & Hout & _). rewrite Hout. simpl.
    symmetry. apply lookup_seq. split; [reflexivity | exact Hlt].
  - rewrite (lookup_ge_None_2 (stdout _)) by lia. simpl.
    symmetry. apply lookup_ge_None_2. rewrite length_seq. lia.
Qed.

(** X2. At the end of any run, returned or aborted, the history is the
    printed values of the completed iterations followed by the zeros
    [np.zeros] put there: an aborted run leaves a partly filled array. *)
Theorem history_is_printed_values_then_zeros {L : Library} (MAX : nat)
    (A Y_init : Matrix) (m n k : nat) (s : solver_state L) :
  let w := (execute MAX A Y_init m n k s).2 in
  ns_residual (globals w)
    = (snd <$> stdout w) ++ replicate (MAX - length (stdout w)) 0%float.
Proof.
  intros w. subst w.
  destruct (history_shape MAX (problem_data A Y_init m n k) s)
    as (Hlen & Hle & _ & Hlines & Hzeros).
  fold (execute MAX A Y_init m n k s) in *.
  apply list_eq. intros idx.
  destruct (decide (idx < length (stdout (execute MAX A Y_init m n k s).2)))
    as [Hlt | Hge].
  - destruct (Hlines idx Hlt) as (v & Hout & Hres).
    rewrite lookup_app_l by (rewrite length_fmap; exact Hlt).
    rewrite list_lookup_fmap, Hout. exact Hres.
  - rewrite lookup_app_r by (rewrite length_fmap; lia). rewrite length_fmap.
    destruct (decide (idx < MAX)) as [Hin | Hout].
    + etransitivity; [exact (Hzeros idx ltac:(lia) Hin) |]. symmetry.
      apply lookup_replicate_2. lia.
    + etransitivity; [apply lookup_ge_None_2; lia |]. symmetry.
      apply lookup_ge_None_2. rewrite length_replicate. lia.
Qed.

(** X3. The cell fails in two ways only, on any globals it is started with:
    with its own exception "Solver did not converge!", or with an error the
    library raised, while building an objective it refuses or inside a
    solve call. It never fails on an unbound name or an index out of
    range. *)
Theorem failure_modes {L : Library} (MAX : nat) (g : namespace)
    (s : solver_state L) (e : exn) :
  (alternating_minimization MAX (start g s)).1 = Raised e ->
  e = Exception "Solver did not converge!" \/
  exists msg,
    e = CvxpyError msg /\
    exists tr,
      (exists o, trace (alternating_minimization MAX (start g s)).2
                   = tr ++ [Build o (Some msg)] /\ validate L o = Some msg) \/
      (exists p a, trace (alternating_minimization MAX (start g s)).2
                     = tr ++ [Solve p a (SolverRaised msg)]).
Proof.
  pose proof (cell_summary g MAX s) as Hsum.
  destruct (alternating_minimization MAX (start g s)) as [[[] | e'] w]; simpl;
    [discriminate |].
  intros [= ->]. destruct Hsum as (i & Hi & Hab).
  destruct (aborted_calls _ _ _ _ _ Hab ltac:(lia)) as (tr & ev & Htr & _ & Hev).
  destruct ev as [o refused | p a out].
  - destruct Hev as (msg & -> & -> & Hval). right. exists msg.
    split; [reflexivity |]. exists tr. left. exists o. split; assumption.
  - destruct Hev as (_ & _ & _ & Hout). destruct out as [r | msg].
    + destruct Hout as (-> & _). left. reflexivity.
    + subst e. right. exists msg. split; [reflexivity |].
      exists tr. right. exists p, a. exact Htr.
Qed.

(** X4. The factors pass from iteration to iteration: the first solve call
    holds the initial guess fixed as [Y], and every call after a returned
    solve holds that solve's solution fixed, as [X] in even iterations and
    as [Y] in odd ones. This holds for the calls of any run. *)
Theorem factors_pass_on {L : Library} (MAX : nat) (A Y_init : Matrix)
    (m n k : nat) (s : solver_state L) :
  starts_from Y_init (solver_calls (trace (execute MAX A Y_init m n k s).2)) /\
  linked (solver_calls (trace (execute MAX A Y_init m n k s).2)).
Proof.
  pose proof (cell_flow (problem_data A Y_init m n k) MAX s) as Hsum.
  fold (execute MAX A Y_init m n k s) in Hsum.
  destruct (execute MAX A Y_init m n k s) as [[[] | e] w]; simpl.
  - destruct Hsum as (_ & Hflow).
    split; [exact (fl_first _ _ _ _ Hflow) | exact (fl_link _ _ _ _ Hflow)].
  - destruct Hsum as (i & _ & _ & Hst).
    split; [exact (st_first _ _ _ _ Hst) | exact (st_link _ _ _ _ Hst)].
Qed.

(** X5. When the cell returns after [MAX >= 1] iterations, the factor the
    last iteration solved for is the solution of the last solve call, [prob]
    holds that call's problem and answer, and, for [MAX >= 2], the other
    factor is the solution of the call before. *)
Theorem returned_factors {L : Library} (MAX : nat) (A Y_init : Matrix)
    (m n k : nat) (s : solver_state L) :
  (execute MAX A Y_init m n k s).1 = Returned tt ->
  1 <= MAX ->
  let g := globals (execute MAX A Y_init m n k s).2 in
  let calls := solver_calls (trace (execute MAX A Y_init m n k s).2) in
  (exists p r,
      calls !! (MAX - 1) = Some (p, scs_args, Solved r) /\
      solved_factor MAX g = Some (primal_value r) /\
      ns_prob g = Some {| prob_problem := p; prob_solution := Some r |}) /\
  (2 <= MAX ->
   exists p r,
     calls !! (MAX - 2) = Some (p, scs_args, Solved r) /\
     kept_factor MAX g = Some (primal_value r)) /\
  (MAX = 1 -> ns_Y g = NDArray Y_init).
Proof.
  pose proof (cell_flow (problem_data A Y_init m n k) MAX s) as Hsum.
  fold (execute MAX A Y_init m n k s) in Hsum.
  destruct (execute MAX A Y_init m n k s) as [[[] | e] w]; simpl; [| discriminate].
  intros _ HMAX. destruct Hsum as (Hinv & Hflow).
  split; [exact (fl_solved _ _ _ _ Hflow HMAX) |].
  split; [exact (fl_kept _ _ _ _ Hflow) |].
  intros ->. exact (inv_Y0 _ _ _ _ Hinv ltac:(lia)).
Qed.

(** X6. Every solve call of a run asks for the SCS solver with an iteration
    budget of 10000. *)
Theorem solve_arguments {L : Library} (MAX : nat) (A Y_init : Matrix)
    (m n k : nat) (s : solver_state L) (i : nat) p a out :
  solver_calls (trace (execute MAX A Y_init m n k s).2) !! i = Some (p, a, out) ->
  solver a = SCS /\ max_iters a = 10000%Z.
Proof.
  intros Hlook. unfold execute in Hlook.
  apply calls_phase in Hlook. destruct Hlook as (_ & -> & _).
  split; reflexivity.
Qed.

(** X7. Running the cell again gives what the first run on fresh problem
    data gives: for [MAX >= 1] the result, the library interactions, the
    printed lines and the globals [Y], [X], [residual] and [iter_num] do not
    depend on what [Y], [X], [residual], [iter_num] and [prob] held when the
    cell was started. *)
Theorem rerun_independent {L : Library} (MAX : nat) (g : namespace)
    (s : solver_state L) :
  1 <= MAX ->
  let again := alternating_minimization MAX (start g s) in
  let fresh := execute MAX (ns_A g) (ns_Y_init g) (ns_m g) (ns_n g) (ns_k g) s in
  again.1 = fresh.1 /\
  trace again.2 = trace fresh.2 /\
  stdout again.2 = stdout fresh.2 /\
  lib again.2 = lib fresh.2 /\
  ns_Y (globals again.2) = ns_Y (globals fresh.2) /\
  ns_X (globals again.2) = ns_X (globals fresh.2) /\
  ns_residual (globals again.2) = ns_residual (globals fresh.2) /\
  ns_iter_num (globals again.2) = ns_iter_num (globals fresh.2).
Proof.
  intros HMAX again fresh. subst again fresh.
  destruct MAX as [| M]; [lia |].
  unfold execute, alternating_minimization, bind, get_globals, put_globals, start.
  apply loop_forgets; simpl; try reflexivity.
  unfold same_data. simpl. repeat split.
Qed.

(** ** The cell "Output results" after the loop *)

(** X8. When the loop has returned and the output cell runs to its end, at
    least one iteration was run, the figure is drawn from the whole history
    and the closing line reports the iteration count [MAX] together with
    the last entry of the history. *)
Theorem closing_line {L : Library}
    (sub_dot : Matrix -> value -> value -> result value)
    (MAX : nat) (A Y_init : Matrix) (m n k : nat) (s : solver_state L) :
  (execute MAX A Y_init m n k s).1 = Returned tt ->
  (output_results sub_dot (globals (execute MAX A Y_init m n k s).2)).1
    = Returned tt ->
  let g := globals (execute MAX A Y_init m n k s).2 in
  1 <= MAX /\
  length (ns_residual g) = MAX /\
  exists shown v,
    (output_results sub_dot g).2
      = Figure (ns_residual g) "Iteration Number" "Residual Norm"
          :: shown ++ [Residual_after MAX (Some v)] /\
    ns_residual g !! (MAX - 1) = Some v.
Proof.
  destruct MAX as [| M].
  - intros _ Hout. vm_compute in Hout. discriminate.
  - pose proof (cell_flow (problem_data A Y_init m n k) (S M) s) as Hsum.
    fold (execute (S M) A Y_init m n k s) in Hsum.
    destruct (execute (S M) A Y_init m n k s) as [[[] | e] w]; simpl; [| discriminate].
    intros _ Hout. destruct Hsum as (Hinv & Hflow).
    split; [lia |]. split; [exact (inv_residual _ _ _ _ Hinv) |].
    destruct (inv_X _ _ _ _ Hinv ltac:(lia)) as (ix & x & _ & _ & HX & _).
    pose proof (inv_iter _ _ _ _ Hinv ltac:(lia)) as Hiter.
    destruct (fl_solved _ _ _ _ Hflow ltac:(lia)) as (p & r & Hcall & _ & Hprob).
    destruct (inv_completed _ _ _ _ Hinv M ltac:(lia))
      as (p' & r' & Hcall' & _ & _ & _ & Hres & _).
    replace (S M - 1) with M in * by lia.
    rewrite Hcall' in Hcall. injection Hcall as -> ->.
    unfold output_results in *. rewrite HX, Hiter, Hprob in *.
    destruct (sub_dot _ _ _) as [d | e]; simpl in *; [| discriminate].
    exists [Text "Original matrix:"; Shown (NDArray (ns_A (globals w)));
            Text "Left factor Y:"; Shown (ns_Y (globals w));
            Text "Right factor X:"; Shown x; Text "Residual A - Y * X:"; Shown d],
      (sol_value r).
    split; [reflexivity |]. replace (M - 0) with M by lia. exact Hres.
Qed.

(** X9. After a returned loop [X] is unbound exactly when no iteration was
    run; the output cell then shows the figure of the empty history, [A]
    and the initial guess as [Y], and fails on the name [X]. *)
Theorem output_without_iterations {L : Library}
    (sub_dot : Matrix -> value -> value -> result value)
    (MAX : nat) (A Y_init : Matrix) (m n k : nat) (s : solver_state L) :
  (execute MAX A Y_init m n k s).1 = Returned tt ->
  (ns_X (globals (execute MAX A Y_init m n k s).2) = None <-> MAX = 0) /\
  (MAX = 0 ->
   output_results sub_dot (globals (execute MAX A Y_init m n k s).2)
     = (Raised (NameError "X"),
        [Figure [] "Iteration Number" "Residual Norm";
         Text "Original matrix:"; Shown (NDArray A);
         Text "Left factor Y:"; Shown (NDArray Y_init);
         Text "Right factor X:"])).
Proof.
  destruct MAX as [| M].
  - intros _. split; [split; reflexivity | intros _; reflexivity].
  - pose proof (execute_summary (S M) A Y_init m n k s) as Hsum.
    destruct (execute (S M) A Y_init m n k s) as [[[] | e] w]; simpl; [| discriminate].
    intros _. split; [| discriminate].
    destruct (inv_X _ _ _ _ Hsum ltac:(lia)) as (ix & x & _ & _ & HX & _).
    rewrite HX. split; discriminate.
Qed.

(** ** The further properties on concrete runs *)

Lemma failure_modes_witness :
  (execute (L:=scripted) MAX_ITERS (zeros (10, 10)) (zeros (8, 5)) 10 10 5 []).1
    = Raised (CvxpyError "ValueError") /\
  (CvxpyError "ValueError" = Exception "Solver did not converge!" \/
   exists msg,
     CvxpyError "ValueError" = CvxpyError msg /\
     exists tr,
       (exists o,
           trace (execute (L:=scripted) MAX_ITERS (zeros (10, 10)) (zeros (8, 5))
                    10 10 5 []).2
             = tr ++ [Build o (Some msg)] /\ validate scripted o = Some msg) \/
       (exists p a,
           trace (execute (L:=scripted) MAX_ITERS (zeros (10, 10)) (zeros (8, 5))
                    10 10 5 []).2
             = tr ++ [Solve p a (SolverRaised msg)])).
Proof.
  assert (H : (execute (L:=scripted) MAX_ITERS (zeros (10, 10)) (zeros (8, 5))
                 10 10 5 []).1 = Raised (CvxpyError "ValueError"))
    by (vm_compute; reflexivity).
  split; [exact H |].
  exact (failure_modes (L:=scripted) MAX_ITERS
           (problem_data (zeros (10, 10)) (zeros (8, 5)) 10 10 5) [] _ H).
Defined.

Lemma returned_factors_witness :
  ((execute (L:=steady 0%float) 3 (zeros (2, 2)) (zeros (2, 1)) 2 2 1 tt).1
     = Returned tt /\ 1 <= 3) /\
  (let g := globals (execute (L:=steady 0%float) 3 (zeros (2, 2)) (zeros (2, 1))
                       2 2 1 tt).2 in
   let calls := solver_calls
                  (trace (execute (L:=steady 0%float) 3 (zeros (2, 2)) (zeros (2, 1))
                            2 2 1 tt).2) in
   (exists p r,
       calls !! (3 - 1) = Some (p, scs_args, Solved r) /\
       solved_factor 3 g = Some (primal_value r) /\
       ns_prob g = Some {| prob_problem := p; prob_solution := Some r |}) /\
   (2 <= 3 ->
    exists p r,
      calls !! (3 - 2) = Some (p, scs_args, Solved r) /\
      kept_factor 3 g = Some (primal_value r)) /\
   (3 = 1 -> ns_Y g = NDArray (zeros (2, 1)))).
Proof.
  assert (H1 : (execute (L:=steady 0%float) 3 (zeros (2, 2)) (zeros (2, 1)) 2 2 1 tt).1
               = Returned tt) by (vm_compute; reflexivity).
  assert (H2 : 1 <= 3) by lia.
  split; [split; [exact H1 | exact H2] |].
  exact (returned_factors (L:=steady 0%float) 3 (zeros (2, 2)) (zeros (2, 1)) 2 2 1 tt
           H1 H2).
Defined.

Lemma solve_arguments_witness :
  solver_calls
    (trace (execute (L:=steady 0%float) 3 (zeros (2, 2)) (zeros (2, 1)) 2 2 1 tt).2) !! 1
    = Some ({| obj := {| target := zeros (2, 2); left := CpVariable (2, 1) None;
                         right := NDArray (zeros (1, 2)) |};
               constraints := [GeZero (CpVariable (2, 1) None)] |},
            scs_args,
            Solved {| sol_status := OPTIMAL; sol_value := 0.25%float;
                      sol_primal := Some (zeros (2, 1)) |}) /\
  (solver scs_args = SCS /\ max_iters scs_args = 10000%Z).
Proof.
  assert (H : solver_calls
    (trace (execute (L:=steady 0%float) 3 (zeros (2, 2)) (zeros (2, 1)) 2 2 1 tt).2) !! 1
    = Some ({| obj := {| target := zeros (2, 2); left := CpVariable (2, 1) None;
                         right := NDArray (zeros (1, 2)) |};
               constraints := [GeZero (CpVariable (2, 1) None)] |},
            scs_args,
            Solved {| sol_status := OPTIMAL; sol_value := 0.25%float;
                      sol_primal := Some (zeros (2, 1)) |}))
    by (vm_compute; reflexivity).
  split; [exact H |].
  exact (solve_arguments (L:=steady 0%float) 3 (zeros (2, 2)) (zeros (2, 1)) 2 2 1 tt
           1 _ _ _ H).
Defined.

Lemma rerun_independent_witness :
  let g := globals (execute (L:=steady slack) 2 (zeros (2, 2)) (zeros (2, 1))
                      2 2 1 tt).2 in
  1 <= 3 /\
  (let again := alternating_minimization 3 (start (L:=steady 0%float) g tt) in
   let fresh := execute (L:=steady 0%float) 3 (ns_A g) (ns_Y_init g)
                  (ns_m g) (ns_n g) (ns_k g) tt in
   again.1 = fresh.1 /\
   trace again.2 = trace fresh.2 /\
   stdout again.2 = stdout fresh.2 /\
   lib again.2 = lib fresh.2 /\
   ns_Y (globals again.2) = ns_Y (globals fresh.2) /\
   ns_X (globals again.2) = ns_X (globals fresh.2) /\
   ns_residual (globals again.2) = ns_residual (globals fresh.2) /\
   ns_iter_num (globals again.2) = ns_iter_num (globals fresh.2)).
Proof.
  intros g. assert (H : 1 <= 3) by lia.
  split; [exact H |].
  exact (rerun_independent (L:=steady 0%float) 3 g tt H).
Defined.

Lemma closing_line_witness :
  ((execute (L:=steady 0%float) 3 (zeros (2, 2)) (zeros (2, 1)) 2 2 1 tt).1
     = Returned tt /\
   (output_results sub_dot_zero
      (globals (execute (L:=steady 0%float) 3 (zeros (2, 2)) (zeros (2, 1))
                  2 2 1 tt).2)).1 = Returned tt) /\
  (let g := globals (execute (L:=steady 0%float) 3 (zeros (2, 2)) (zeros (2, 1))
                       2 2 1 tt).2 in
   1 <= 3 /\
   length (ns_residual g) = 3 /\
   exists shown v,
     (output_results sub_dot_zero g).2
       = Figure (ns_residual g) "Iteration Number" "Residual Norm"
           :: shown ++ [Residual_after 3 (Some v)] /\
     ns_residual g !! (3 - 1) = Some v).
Proof.
  assert (H1 : (execute (L:=steady 0%float) 3 (zeros (2, 2)) (zeros (2, 1)) 2 2 1 tt).1
               = Returned tt) by (vm_compute; reflexivity).
  assert (H2 : (output_results sub_dot_zero
      (globals (execute (L:=steady 0%float) 3 (zeros (2, 2)) (zeros (2, 1))
                  2 2 1 tt).2)).1 = Returned tt) by (vm_compute; reflexivity).
  split; [split; [exact H1 | exact H2] |].
  exact (closing_line (L:=steady 0%float) sub_dot_zero 3 (zeros (2, 2)) (zeros (2, 1))
           2 2 1 tt H1 H2).
Defined.

Lemma output_without_iterations_witness :
  (execute (L:=steady 0%float) 0 (zeros (2, 2)) (zeros (2, 1)) 2 2 1 tt).1
    = Returned tt /\
  ((ns_X (globals (execute (L:=steady 0%float) 0 (zeros (2, 2)) (zeros (2, 1))
                     2 2 1 tt).2) = None <-> 0 = 0) /\
   (0 = 0 ->
    output_results sub_dot_zero
      (globals (execute (L:=steady 0%float) 0 (zeros (2, 2)) (zeros (2, 1))
                  2 2 1 tt).2)
      = (Raised (NameError "X"),
         [Figure [] "Iteration Number" "Residual Norm";
          Text "Original matrix:"; Shown (NDArray (zeros (2, 2)));
          Text "Left factor Y:"; Shown (NDArray (zeros (2, 1)));
          Text "Right factor X:"]))).
Proof.
  assert (H : (execute (L:=steady 0%float) 0 (zeros (2, 2)) (zeros (2, 1)) 2 2 1 tt).1
              = Returned tt) by reflexivity.
  split; [exact H |].
  exact (output_without_iterations (L:=steady 0%float) sub_dot_zero 0 (zeros (2, 2))
           (zeros (2, 1)) 2 2 1 tt H).
Defined.

(** ** What an aborted run leaves in the factor it was solving for *)

Lemma for_each_raised {L : Library} (body : nat -> M (L:=L) unit) (l : list nat) :
  forall (w : world L) (e : exn) (w' : world L),
    for_each l body w = (Raised e, w') ->
    exists i w0, i ∈ l /\ body i w0 = (Raised e, w').
Proof.
  induction l as [| i l IH]; intros w e w' Hrun; simpl in Hrun.
  - discriminate.
  - unfold bind in Hrun. destruct (body i w) as [[[] | e0] w1] eqn:Hbody.
    + destruct (IH _ _ _ Hrun) as (i' & w0 & Hin & Hraise).
      exists i', w0. split; [right; exact Hin | exact Hraise].
    + injection Hrun as -> ->. exists i, w. split; [left | exact Hbody].
Qed.

Lemma iteration_raised_variable {L : Library} (i : nat) (w : world L) (e : exn)
    (w' : world L) :
  iteration i w = (Raised e, w') ->
  ns_iter_num (globals w') = Some i /\
  exists shape val, solved_factor i (globals w') = Some (CpVariable shape val).
Proof.
  unfold iteration, build_objective, bind, get_globals, put_globals, ret, raise,
    log, print, call_solver, store_solution, solved_factor.
  destruct (i mod 2 =? 1) eqn:Hpar; simpl.
  - destruct (validate L _) as [msg |]; simpl.
    { intros [= <- <-]. simpl. split; [reflexivity | eexists _, _; reflexivity]. }
    destruct (solve L _ _ _) as [[r | msg] s']; simpl.
    + destruct (negb _); simpl.
      { intros [= <- <-]. simpl. split; [reflexivity | eexists _, _; reflexivity]. }
      destruct (setitem _ _ _); simpl; [discriminate |].
      intros [= <- <-]. simpl. split; [reflexivity | eexists _, _; reflexivity].
    + intros [= <- <-]. simpl. split; [reflexivity | eexists _, _; reflexivity].
  - destruct (ns_X (globals w)) as [x |]; simpl.
    + destruct (validate L _) as [msg |]; simpl.
      { intros [= <- <-]. simpl. split; [reflexivity | eexists _, _; reflexivity]. }
      destruct (solve L _ _ _) as [[r | msg] s']; simpl.
      * destruct (negb _); simpl.
        { intros [= <- <-]. simpl. split; [reflexivity | eexists _, _; reflexivity]. }
        destruct (setitem _ _ _); simpl; [discriminate |].
        intros [= <- <-]. simpl. split; [reflexivity | eexists _, _; reflexivity].
      * intros [= <- <-]. simpl. split; [reflexivity | eexists _, _; reflexivity].
    + intros [= <- <-]. simpl. split; [reflexivity | eexists _, _; reflexivity].
Qed.

(** X10. When the cell is aborted, in whatever way, the factor the failing
    iteration was solving for ([X] if [iter_num] is odd, [Y] if it is even)
    is left bound to the CVXPY variable, not to an array: the array it held
    before is gone from the globals. *)
Theorem aborted_run_leaves_variable {L : Library} (MAX : nat) (g : namespace)
    (s : solver_state L) (e : exn) :
  (alternating_minimization MAX (start g s)).1 = Raised e ->
  exists i shape val,
    1 <= i <= MAX /\
    ns_iter_num (globals (alternating_minimization MAX (start g s)).2) = Some i /\
    solved_factor i (globals (alternating_minimization MAX (start g s)).2)
      = Some (CpVariable shape val).
Proof.
  unfold alternating_minimization, bind, get_globals, put_globals, start. simpl.
  match goal with
  | |- (for_each _ _ ?w).1 = _ -> _ =>
      destruct (for_each (seq 1 MAX) iteration w) as [[[] | e'] w'] eqn:Hrun
  end; simpl; [discriminate |].
  intros [= ->].
  destruct (for_each_raised _ _ _ _ _ Hrun) as (i & w0 & Hin & Hraise).
  apply elem_of_seq in Hin.
  destruct (iteration_raised_variable _ _ _ _ Hraise) as (Hiter & shape & val & Hvar).
  exists i, shape, val. split; [lia |]. split; assumption.
Qed.

Lemma aborted_run_leaves_variable_witness :
  (alternating_minimization 3
     (start (L:=scripted) (problem_data (zeros (2, 2)) (zeros (2, 1)) 2 2 1)
        [(OPTIMAL, 1.5%float); ("unbounded"%string, neg_infinity)])).1
    = Raised (Exception "Solver did not converge!") /\
  (exists i shape val,
      1 <= i <= 3 /\
      ns_iter_num
        (globals (alternating_minimization 3
                    (start (L:=scripted) (problem_data (zeros (2, 2)) (zeros (2, 1)) 2 2 1)
                       [(OPTIMAL, 1.5%float); ("unbounded"%string, neg_infinity)])).2)
        = Some i /\
      solved_factor i
        (globals (alternating_minimization 3
                    (start (L:=scripted) (problem_data (zeros (2, 2)) (zeros (2, 1)) 2 2 1)
                       [(OPTIMAL, 1.5%float); ("unbounded"%string, neg_infinity)])).2)
        = Some (CpVariable shape val)).
Proof.
  assert (H : (alternating_minimization 3
     (start (L:=scripted) (problem_data (zeros (2, 2)) (zeros (2, 1)) 2 2 1)
        [(OPTIMAL, 1.5%float); ("unbounded"%string, neg_infinity)])).1
    = Raised (Exception "Solver did not converge!")) by (vm_compute; reflexivity).
  split; [exact H |].
  exact (aborted_run_leaves_variable (L:=scripted) 3
           (problem_data (zeros (2, 2)) (zeros (2, 1)) 2 2 1) _ _ H).
Defined.
